(** * Client resource layer of the serverless MariaDB storage engine

    A shallow embedding of the C++ sources
      - [serverless_types.h]   (PageId, TimelineId, WalRecord),
      - [pageserver_client.cc] (HTTP page client),
      - [safekeeper_client.cc] (TCP WAL client and its async append queue),
      - [connection_pool.cc]   (dual connection pool) and the scoped
                               wrappers of [connection_pool.h],
      - [ha_serverless.cc]     (page cache, table and row operations of the
                               table handler, plugin initialization),
    followed by the properties established about them.

    Conventions.  Fixed-width unsigned integers are [Z] with the wrap-around
    written out ([wrap64]).  Raw byte buffers are [list byte]; formatted
    text (URLs, wire messages) is [string].  Pointers to pooled client objects
    are identities of type [Conn]; a null pointer is [None].  Calls that leave
    the component (libc sockets, libcurl, the clock, the lower layers seen
    from the handler) are answered by an oracle that may depend on the whole
    history of calls, and every call is appended to a trace. *)

From stdpp Require Import gmap list strings pretty.
From Stdlib Require Import Strings.Byte.

Set Warnings "-clear-no-such-hyp".

Open Scope Z_scope.

(** ** Machine arithmetic and C buffers *)

Definition wrap64 (z : Z) : Z := z mod 2 ^ 64.

(** Conversion to [int]: 32 bits, two's complement. *)
Definition to_int (z : Z) : Z := (z + 2 ^ 31) mod 2 ^ 32 - 2 ^ 31.

(** [memcpy(dst, src, n)]: the first [n] bytes of [dst] are replaced by the
    first [n] bytes of [src]. *)
Definition memcpy (dst src : list byte) (n : Z) : list byte :=
  take (Z.to_nat n) src ++ drop (Z.to_nat n) dst.

(** [malloc(n)]: [n] bytes whose content is not specified, taken as zeros. *)
Definition malloc (n : Z) : list byte := replicate (Z.to_nat n) x00.

(** [memset(dst + off, c, n)]. *)
Definition memset (dst : list byte) (off : Z) (c : byte) (n : Z) : list byte :=
  take (Z.to_nat off) dst ++ replicate (Z.to_nat n) c
    ++ drop (Z.to_nat off + Z.to_nat n) dst.

(** The bytes a [%.*s] conversion prints from a [char*]: it stops at the first
    NUL, and after [prec] bytes when a precision is in force. *)
Fixpoint c_string (prec : option nat) (s : list byte) : list byte :=
  match prec with
  | Some O => []
  | _ =>
    match s with
    | [] => []
    | b :: s' =>
      if Byte.eqb b x00 then []
      else b :: c_string (pred <$> prec) s'
    end
  end.

(** [snprintf(buf, size, ...)] keeps at most [size - 1] characters of the
    formatted text and returns the length of the whole text. *)
Definition snprintf (size : Z) (text : string) : string * Z :=
  (String.substring 0 (Z.to_nat (size - 1)) text, Z.of_nat (String.length text)).

Definition dquote : string := String (Ascii.ascii_of_nat 34) EmptyString.

(** ** A small state monad *)

Definition State (S A : Type) : Type := S -> A * S.

Definition ret {S A} (a : A) : State S A := fun s => (a, s).

Definition bind {S A B} (m : State S A) (k : A -> State S B) : State S B :=
  fun s => let (a, s') := m s in k a s'.

Definition gets {S A} (f : S -> A) : State S A := fun s => (f s, s).

Definition modify {S} (f : S -> S) : State S unit := fun s => (tt, f s).

Declare Scope state_scope.
Delimit Scope state_scope with state.
Notation "'do' x <- m ; k" := (bind m (fun x => k))
  (at level 10, x name, m at level 100, k at level 200) : state_scope.
Notation "'do' ' p <- m ; k" := (bind m (fun x => let 'p := x in k))
  (at level 10, p pattern, m at level 100, k at level 200) : state_scope.
Notation "'run' m ; k" := (bind m (fun _ => k))
  (at level 10, m at level 100, k at level 200) : state_scope.

(** ** serverless_types.h *)

Record PageId := mkPageId {
  timeline_id : Z;   (* uint64_t *)
  page_number : Z    (* uint32_t *)
}.

Module TimelineId.
Record t := mk {
  id : Z           (* uint64_t *)
}.
End TimelineId.

Module WalRecord.
Record t := mk {
  lsn : Z;             (* uint64_t, log sequence number *)
  length : Z;          (* uint32_t, record length *)
  data : list byte     (* const char*, the bytes it points to *)
}.
End WalRecord.

(** Values the C++ types can hold. *)
Definition PageId_ok (p : PageId) : Prop :=
  0 <= timeline_id p < 2 ^ 64 /\ 0 <= page_number p < 2 ^ 32.

(** MariaDB's 16 KiB page ([ha_serverless.cc]). *)
Definition MARIADB_PAGE_SIZE : Z := 16384.

Global Arguments memcpy : simpl never.
Global Arguments malloc : simpl never.

(** Handler error code of MariaDB's [my_base.h]. *)
Definition HA_ERR_GENERIC : Z := 168.

(** Identity of a pooled client object (a non-null pointer). *)
Definition Conn : Type := positive.

(** ** pageserver_client.cc *)

Module Pageserver.

Record HttpResponse := mkHttpResponse {
  resp_data : option (list byte);   (* char*, [None] is nullptr *)
  resp_size : Z
}.

Definition HttpResponse_new : HttpResponse := mkHttpResponse None 0.

Record PageserverClient := mkPageserverClient {
  curl_handle : bool;               (* handle is non-null *)
  base_url : string;
  timeout_seconds : Z
}.

(** What one [curl_easy_perform] does: the body chunks it hands to the
    write callback, whether it ended with [CURLE_OK], and the status code
    [curl_easy_getinfo] reports afterwards. *)
Record CurlOutcome := mkCurlOutcome {
  chunks : list (list byte);
  curl_ok : bool;
  response_code : Z
}.

(** Returns the callback's value and the response after the call; [contents]
    holds the [size * nmemb] bytes libcurl hands over, and [realloc] is taken
    to succeed. *)
Definition write_callback (contents : list byte) (size nmemb : Z)
    (response : HttpResponse) : Z * HttpResponse :=
  let total_size := size * nmemb in
  (total_size,
   mkHttpResponse (Some (default [] (resp_data response)
                           ++ take (Z.to_nat total_size) contents))
                  (resp_size response + total_size)).

(** libcurl delivers the body chunk by chunk, each with [size = 1]. *)
Definition deliver (response : HttpResponse) (chunks : list (list byte))
  : HttpResponse :=
  foldl (fun r ch => snd (write_callback ch 1 (Z.of_nat (List.length ch)) r))
        response chunks.

Definition make_http_request (c : PageserverClient)
    (curl_easy_perform : string -> CurlOutcome)
    (url : string) (response : HttpResponse) : Z * HttpResponse :=
  if negb (curl_handle c) then (-1, response)
  else
    let o := curl_easy_perform url in
    let response' := deliver response (chunks o) in
    if negb (curl_ok o) then (-1, response')
    else (if decide (response_code o = 200) then 0 else -1, response').

Definition build_page_url (c : PageserverClient) (page_id : PageId) : string :=
  fst (snprintf 256 (base_url c +:+ "/page/" +:+ pretty (timeline_id page_id)
                       +:+ "/" +:+ pretty (page_number page_id))).

(** Returns the status and the caller's buffer after the call. *)
Definition read_page (c : PageserverClient)
    (curl_easy_perform : string -> CurlOutcome)
    (page_id : PageId) (buffer : list byte) (buffer_size : Z)
  : Z * list byte :=
  let url := build_page_url c page_id in
  let '(result, response) :=
    make_http_request c curl_easy_perform url HttpResponse_new in
  match resp_data response with
  | Some d =>
    if decide (result = 0 /\ resp_size response <= buffer_size) then
      let buffer1 := memcpy buffer d (resp_size response) in
      let buffer2 :=
        if decide (resp_size response < buffer_size)
        then memset buffer1 (resp_size response) x00
                    (buffer_size - resp_size response)
        else buffer1 in
      (result, buffer2)
    else (-1, buffer)
  | None => (-1, buffer)
  end.

Definition build_timeline_url (c : PageserverClient) (timeline_id : TimelineId.t)
  : string :=
  fst (snprintf 256 (base_url c +:+ "/timeline/"
                       +:+ pretty (TimelineId.id timeline_id))).

(** Returns the status and [*latest_lsn] after the call. *)
Definition get_timeline_info (c : PageserverClient)
    (curl_easy_perform : string -> CurlOutcome)
    (timeline_id : TimelineId.t) (latest_lsn : Z) : Z * Z :=
  let url := build_timeline_url c timeline_id in
  let '(result, response) :=
    make_http_request c curl_easy_perform url HttpResponse_new in
  match resp_data response with
  | Some _ =>
    if decide (result = 0) then
      (* Parse JSON response for LSN (simplified) *)
      (result, 1)
    else (-1, latest_lsn)
  | None => (-1, latest_lsn)
  end.

Definition create_timeline (c : PageserverClient)
    (curl_easy_perform : string -> CurlOutcome)
    (timeline_id : TimelineId.t) : Z :=
  let url := build_timeline_url c timeline_id in
  (* For now, just check if timeline exists *)
  let '(result, _) :=
    make_http_request c curl_easy_perform url HttpResponse_new in
  if decide (result = 0) then 0 else -1.

Definition delete_timeline (c : PageserverClient) (timeline_id : TimelineId.t)
  : Z :=
  0.

Definition check_availability (c : PageserverClient)
    (curl_easy_perform : string -> CurlOutcome) : Z :=
  let url := fst (snprintf 256 (base_url c +:+ "/health")) in
  fst (make_http_request c curl_easy_perform url HttpResponse_new).

Definition get_server_status := check_availability.

End Pageserver.

(** ** safekeeper_client.cc *)

Module Safekeeper.

(** The libc calls of the client.  [sys_recv] answers [None] for a failed
    [recv] and [Some s] for the bytes the peer sent ([Some ""] is an orderly
    shutdown, for which [recv] returns 0); every other call answers its C
    return value. *)
Inductive Syscall :=
| sys_socket
| sys_inet_pton (host : string)
| sys_connect (fd : Z) (port : Z)
| sys_close (fd : Z)
| sys_send (fd : Z) (msg : string) (len : Z)
| sys_recv (fd : Z) (maxlen : Z).

Definition sys_ans (c : Syscall) : Type :=
  match c with
  | sys_recv _ _ => option string
  | sys_close _ => unit
  | _ => Z
  end.

Definition Oracle : Type := forall (history : list Syscall) (c : Syscall), sys_ans c.

Record WalAppendRequest := mkWalAppendRequest {
  timeline : TimelineId.t;
  record : WalRecord.t;
  completed : bool;
  result : Z
}.

Definition WalAppendRequest_new (tl : TimelineId.t) (r : WalRecord.t) :=
  mkWalAppendRequest tl r false 0.

Record SafekeeperClient := mkSafekeeperClient {
  server_host : string;
  server_port : Z;
  socket_fd : Z;
  connected : bool;
  append_queue : list WalAppendRequest;   (* std::queue, front first *)
  shutdown_requested : bool
}.

Definition SafekeeperClient_new (host : string) (port : Z) : SafekeeperClient :=
  mkSafekeeperClient host port (-1) false [] false.

Definition set_socket_fd (fd : Z) (c : SafekeeperClient) :=
  mkSafekeeperClient (server_host c) (server_port c) fd (connected c)
                     (append_queue c) (shutdown_requested c).
Definition set_connected (b : bool) (c : SafekeeperClient) :=
  mkSafekeeperClient (server_host c) (server_port c) (socket_fd c) b
                     (append_queue c) (shutdown_requested c).
Definition set_append_queue (q : list WalAppendRequest) (c : SafekeeperClient) :=
  mkSafekeeperClient (server_host c) (server_port c) (socket_fd c) (connected c)
                     q (shutdown_requested c).
Definition set_shutdown_requested (b : bool) (c : SafekeeperClient) :=
  mkSafekeeperClient (server_host c) (server_port c) (socket_fd c) (connected c)
                     (append_queue c) b.

(** [strlen]: the characters before the first NUL. *)
Fixpoint strlen (s : string) : Z :=
  match s with
  | EmptyString => 0
  | String a s' => if Ascii.eqb a Ascii.zero then 0 else 1 + strlen s'
  end.

Definition quoted (s : string) : string := dquote +:+ s +:+ dquote.

(** Returns the value of the C function and the buffer it wrote. *)
Definition serialize_append_request (timeline_id : TimelineId.t)
    (record : WalRecord.t) (buffer_size : Z) : Z * string :=
  let prec :=   (* (int)record.length; a negative precision counts as none *)
    if WalRecord.length record <? 2 ^ 31
    then Some (Z.to_nat (WalRecord.length record)) else None in
  let text :=
    "{" +:+ quoted "type" +:+ ":" +:+ quoted "append" +:+ ","
        +:+ quoted "timeline_id" +:+ ":" +:+ pretty (TimelineId.id timeline_id) +:+ ","
        +:+ quoted "lsn" +:+ ":" +:+ pretty (WalRecord.lsn record) +:+ ","
        +:+ quoted "length" +:+ ":" +:+ pretty (WalRecord.length record) +:+ ","
        +:+ quoted "data" +:+ ":"
        +:+ quoted (String.string_of_list_byte (c_string prec (WalRecord.data record)))
        +:+ "}" in
  let '(buffer, written) := snprintf buffer_size text in
  (if written <? to_int buffer_size then written else -1, buffer).

Global Arguments serialize_append_request : simpl never.

(** Returns the value of the C function and [*committed_lsn]. *)
Definition deserialize_append_response (buffer : string) (buffer_size : Z)
  : Z * Z :=
  (0, 1).

Section Net.

Variable net : Oracle.

(** The client object and the calls made so far. *)
Definition SkM : Type -> Type := State (SafekeeperClient * list Syscall).

Definition syscall (c : Syscall) : SkM (sys_ans c) :=
  fun s => (net (snd s) c, (fst s, snd s ++ [c])).

Definition this : SkM SafekeeperClient := gets fst.

Definition update (f : SafekeeperClient -> SafekeeperClient) : SkM unit :=
  modify (fun s => (f (fst s), snd s)).

Open Scope state_scope.

Definition establish_connection : SkM Z :=
  do c <- this;
  if connected c then ret 0
  else
    do fd <- syscall sys_socket;
    run update (set_socket_fd fd);
    if fd <? 0 then ret (-1)
    else
      do r <- syscall (sys_inet_pton (server_host c));
      if r <=? 0 then
        run syscall (sys_close fd);
        run update (set_socket_fd (-1));
        ret (-1)
      else
        do r <- syscall (sys_connect fd (server_port c mod 2 ^ 16));
        if r <? 0 then
          run syscall (sys_close fd);
          run update (set_socket_fd (-1));
          ret (-1)
        else
          run update (set_connected true);
          ret 0.

Definition close_connection : SkM unit :=
  do c <- this;
  run (if 0 <=? socket_fd c then
         run syscall (sys_close (socket_fd c));
         update (set_socket_fd (-1))
       else ret tt);
  update (set_connected false).

Definition reconnect_if_needed : SkM Z :=
  do c <- this;
  if negb (connected c) then establish_connection else ret 0.

Definition connect : SkM Z := establish_connection.

Definition disconnect : SkM unit := close_connection.

Definition send_message (data : string) (length : Z) : SkM Z :=
  do c <- this;
  if negb (connected c) || (socket_fd c <? 0) then ret (-1)
  else
    do bytes_sent <- syscall (sys_send (socket_fd c) data length);
    ret (if decide (bytes_sent = length) then 0 else -1).

(** Returns the value of the C function and what it left in the buffer
    (nothing when it fails). *)
Definition receive_message (buffer_size : Z) : SkM (Z * string) :=
  do c <- this;
  if negb (connected c) || (socket_fd c <? 0) then ret (-1, "")
  else
    let len := wrap64 (buffer_size - 1) in   (* size_t arithmetic *)
    do r <- syscall (sys_recv (socket_fd c) len);
    match r with
    | Some s =>
      let got := String.substring 0 (Z.to_nat len) s in
      let bytes_received := Z.of_nat (String.length got) in
      if 0 <? bytes_received then ret (to_int bytes_received, got)
      else ret (-1, "")
    | None => ret (-1, "")
    end.

Definition append_wal_record (timeline_id : TimelineId.t)
    (record : WalRecord.t) : SkM Z :=
  do r <- reconnect_if_needed;
  if decide (r <> 0) then ret (-1)
  else
    let '(request_length, request_buffer) :=
      serialize_append_request timeline_id record 4096 in
    if request_length <? 0 then ret (-1)
    else
      do s <- send_message request_buffer request_length;
      if decide (s <> 0) then ret (-1)
      else
        do '(n, response_buffer) <- receive_message 1024;
        if n <? 0 then ret (-1)
        else
          let '(status, committed_lsn) :=
            deserialize_append_response response_buffer
                                        (strlen response_buffer) in
          ret status.

(** The request copies the [WalRecord], and with it the pointer to the
    bytes.  A request here carries the bytes found at submission, which are
    the bytes the worker reads as long as the caller leaves its buffer
    alone; [Pipeline] below keeps the pointer and the callers' memory, and
    [PipelineFacts.by_value_run_agrees] relates the two. *)
Definition append_wal_record_async (timeline_id : TimelineId.t)
    (record : WalRecord.t) : SkM Z :=
  let request := WalAppendRequest_new timeline_id record in
  run update (fun c => set_append_queue (append_queue c ++ [request]) c);
  ret 0.

Definition process_append_request (request : WalAppendRequest) : SkM Z :=
  append_wal_record (timeline request) (record request).

(** One turn of the loop of [worker_thread_main].  [worker_handled] carries
    the request object as it is when [delete request] runs; the object is
    not kept anywhere in the client. *)
Inductive WorkerTurn :=
| worker_exit                                (* [break] on shutdown *)
| worker_wait                                (* still blocked on the condition *)
| worker_handled (request : WalAppendRequest).

Definition worker_thread_turn : SkM WorkerTurn :=
  do c <- this;
  if shutdown_requested c then ret worker_exit
  else
    match append_queue c with
    | [] => ret worker_wait
    | request :: rest =>
      run update (set_append_queue rest);
      do r <- process_append_request request;
      let request' :=
        mkWalAppendRequest (timeline request) (record request) true r in
      ret (worker_handled request')
    end.

(** What [~SafekeeperClient] does to the object: it asks the worker to
    stop, drops the requests still queued and closes the socket. *)
Definition destroy : SkM unit :=
  run update (set_shutdown_requested true);
  run update (set_append_queue []);
  close_connection.

(** Interleavings of the threads that use one client: callers that submit
    records, the worker, and the request to shut down.  The queue is only
    touched under [queue_mutex], and submitting a record touches nothing
    else, so taking a whole worker turn as one step loses no behaviour. *)
Inductive Action :=
| act_submit (timeline_id : TimelineId.t) (record : WalRecord.t)
| act_worker
| act_request_shutdown.

(** Runs a schedule; returns the status given to each submitter and the
    requests the worker handled, both in the order of the schedule. *)
Fixpoint run_schedule (sched : list Action)
  : SkM (list Z * list WalAppendRequest) :=
  match sched with
  | [] => ret ([], [])
  | a :: sched' =>
    match a with
    | act_submit tl r =>
      do status <- append_wal_record_async tl r;
      do '(sts, hs) <- run_schedule sched';
      ret (status :: sts, hs)
    | act_worker =>
      do t <- worker_thread_turn;
      do '(sts, hs) <- run_schedule sched';
      ret (sts, match t with worker_handled q => q :: hs | _ => hs end)
    | act_request_shutdown =>
      run update (set_shutdown_requested true);
      run_schedule sched'
    end
  end.

Definition read_wal_record (timeline_id : TimelineId.t) (lsn : Z)
    (buffer_size : Z) : SkM Z :=
  ret (-1).

Definition create_timeline (timeline_id : TimelineId.t) : SkM Z :=
  do r <- reconnect_if_needed;
  if decide (r <> 0) then ret (-1)
  else
    let request_buffer :=
      fst (snprintf 256
             ("{" +:+ quoted "type" +:+ ":" +:+ quoted "create_timeline" +:+ ","
                  +:+ quoted "timeline_id" +:+ ":"
                  +:+ pretty (TimelineId.id timeline_id) +:+ "}")) in
    do s <- send_message request_buffer (strlen request_buffer);
    if decide (s <> 0) then ret (-1)
    else
      do '(n, response_buffer) <- receive_message 1024;
      if n <? 0 then ret (-1)
      else ret 0.

(** Returns the status and [*latest_lsn]. *)
Definition get_timeline_status (timeline_id : TimelineId.t) : SkM (Z * Z) :=
  ret (0, 1).

Definition get_server_status : SkM Z :=
  do c <- this;
  ret (if connected c then 0 else -1).

Definition check_availability : SkM Z := reconnect_if_needed.

(** A turn of the worker repeated [n] times; returns the requests handled. *)
Fixpoint worker_turns (n : nat) : SkM (list WalAppendRequest) :=
  match n with
  | O => ret []
  | S n' =>
    do t <- worker_thread_turn;
    do hs <- worker_turns n';
    ret (match t with worker_handled q => q :: hs | _ => hs end)
  end.

End Net.

(** The records a schedule submits, in order. *)
Definition submitted (sched : list Action) : list (TimelineId.t * WalRecord.t) :=
  omap (fun a => match a with act_submit tl r => Some (tl, r) | _ => None end) sched.

(** What a request was submitted with. *)
Definition payload (q : WalAppendRequest) : TimelineId.t * WalRecord.t :=
  (timeline q, record q).

(** The request objects [append_wal_record_async] builds for a list of
    submissions. *)
Definition fresh_requests (l : list (TimelineId.t * WalRecord.t))
  : list WalAppendRequest :=
  map (fun p => WalAppendRequest_new (fst p) (snd p)) l.

(** The message [append_wal_record] sends for a request. *)
Definition wire_message (q : WalAppendRequest) : string :=
  snd (serialize_append_request (timeline q) (record q) 4096).

(** The number of [socket] calls, one per attempt to connect. *)
Definition connect_attempts (tr : list Syscall) : nat :=
  List.length (omap (fun c => match c with sys_socket => Some tt | _ => None end) tr).

(** The descriptors handed to [close], in order. *)
Definition closed (tr : list Syscall) : list Z :=
  omap (fun c => match c with sys_close fd => Some fd | _ => None end) tr.

(** The number of worker turns in a schedule. *)
Definition worker_steps (sched : list Action) : nat :=
  List.length (omap (fun a => match a with act_worker => Some tt | _ => None end)
                    sched).

(** The messages handed to [send], in order. *)
Definition sent (tr : list Syscall) : list string :=
  omap (fun c => match c with sys_send _ msg _ => Some msg | _ => None end) tr.

End Safekeeper.

(** ** safekeeper_client.cc: the append queue and the callers' memory

    [WalRecord::data] is a [const char*], and a [WalAppendRequest] holds a
    copy of the [WalRecord], that is, of the pointer: the bytes are read
    when the worker serializes the request, not when it is queued.  Here
    the queue holds the pointers and the memory of the callers is part of
    the state; the connection is the client of [Safekeeper], whose
    [append_wal_record] is handed the record as it reads at that moment. *)

Module Pipeline.

Definition Ptr : Type := positive.

(** What each buffer of the callers holds. *)
Definition Memory : Type := Ptr -> list byte.

Definition store (p : Ptr) (bytes : list byte) (m : Memory) : Memory :=
  fun q => if decide (q = p) then bytes else m q.

(** [struct WalRecord], with the pointer. *)
Module WalRecordRef.
Record t := mk {
  lsn : Z;                (* uint64_t *)
  length : Z;             (* uint32_t *)
  data : Ptr              (* const char* *)
}.
End WalRecordRef.

(** The record as a reader finds it. *)
Definition load (m : Memory) (r : WalRecordRef.t) : WalRecord.t :=
  WalRecord.mk (WalRecordRef.lsn r) (WalRecordRef.length r)
               (m (WalRecordRef.data r)).

Record WalAppendRequest := mkWalAppendRequest {
  timeline_id : TimelineId.t;
  record : WalRecordRef.t;
  completed : bool;
  result : Z
}.

Definition WalAppendRequest_new (tl : TimelineId.t) (r : WalRecordRef.t) :=
  mkWalAppendRequest tl r false 0.

(** The client with its queue of requests ([append_queue] of the client
    record is not used here), the callers' memory and the calls made. *)
Record State := mkState {
  memory : Memory;
  append_queue : list WalAppendRequest;   (* std::queue, front first *)
  client : Safekeeper.SafekeeperClient;
  calls : list Safekeeper.Syscall
}.

Section Net.

Variable net : Safekeeper.Oracle.

Definition append_wal_record_async (timeline_id : TimelineId.t)
    (record : WalRecordRef.t) (s : State) : Z * State :=
  let request := WalAppendRequest_new timeline_id record in
  (0, mkState (memory s) (append_queue s ++ [request]) (client s) (calls s)).

Definition process_append_request (request : WalAppendRequest) (s : State)
  : Z * State :=
  let '(r, (c, tr)) :=
    Safekeeper.append_wal_record net (timeline_id request)
      (load (memory s) (record request)) (client s, calls s) in
  (r, mkState (memory s) (append_queue s) c tr).

(** One turn of the loop of [worker_thread_main].  [worker_handled]
    carries the request object as it is when [delete request] runs and,
    beside it, the record as the turn read it. *)
Inductive WorkerTurn :=
| worker_exit
| worker_wait
| worker_handled (request : WalAppendRequest) (read : WalRecord.t).

Definition worker_thread_turn (s : State) : WorkerTurn * State :=
  if Safekeeper.shutdown_requested (client s) then (worker_exit, s)
  else
    match append_queue s with
    | [] => (worker_wait, s)
    | request :: rest =>
      let s := mkState (memory s) rest (client s) (calls s) in
      let read := load (memory s) (record request) in
      let '(r, s) := process_append_request request s in
      (worker_handled
         (mkWalAppendRequest (timeline_id request) (record request) true r)
         read, s)
    end.

(** Interleavings of the threads around one client: callers that submit
    records or write to their buffers, the worker, and the request to shut
    down.  A worker turn is one step; a caller that writes to a buffer
    while the worker is reading it is a data race and is left out. *)
Inductive Action :=
| act_submit (timeline_id : TimelineId.t) (record : WalRecordRef.t)
| act_worker
| act_request_shutdown
| act_store (p : Ptr) (bytes : list byte).

(** Runs a schedule; returns the status given to each submitter and what
    the worker handled, both in the order of the schedule. *)
Fixpoint run_schedule (sched : list Action) (s : State)
  : (list Z * list (WalAppendRequest * WalRecord.t)) * State :=
  match sched with
  | [] => (([], []), s)
  | a :: sched' =>
    match a with
    | act_submit tl r =>
      let '(status, s) := append_wal_record_async tl r s in
      let '((sts, hs), s) := run_schedule sched' s in
      ((status :: sts, hs), s)
    | act_worker =>
      let '(t, s) := worker_thread_turn s in
      let '((sts, hs), s) := run_schedule sched' s in
      ((sts, match t with
             | worker_handled q read => (q, read) :: hs
             | _ => hs
             end), s)
    | act_request_shutdown =>
      run_schedule sched'
        (mkState (memory s) (append_queue s)
                 (Safekeeper.set_shutdown_requested true (client s)) (calls s))
    | act_store p bytes =>
      run_schedule sched'
        (mkState (store p bytes (memory s)) (append_queue s) (client s) (calls s))
    end
  end.

End Net.

(** The requests a schedule submits, in order. *)
Definition submitted (sched : list Action) : list WalAppendRequest :=
  omap (fun a => match a with
                 | act_submit tl r => Some (WalAppendRequest_new tl r)
                 | _ => None
                 end) sched.

(** The buffers a schedule writes to. *)
Definition stores (sched : list Action) : list Ptr :=
  omap (fun a => match a with act_store p _ => Some p | _ => None end) sched.

(** The number of requests the worker takes over a schedule: a turn takes
    one when no shutdown has been requested and a request is queued. *)
Fixpoint served (sched : list Action) (stopped : bool) (queued : nat) : nat :=
  match sched with
  | [] => 0
  | act_submit _ _ :: sched' => served sched' stopped (S queued)
  | act_worker :: sched' =>
    if stopped then served sched' stopped queued
    else match queued with
         | O => served sched' stopped O
         | S queued' => S (served sched' stopped queued')
         end
  | act_request_shutdown :: sched' => served sched' true queued
  | act_store _ _ :: sched' => served sched' stopped queued
  end.

(** What a request was submitted with. *)
Definition submission (q : WalAppendRequest) : TimelineId.t * WalRecordRef.t :=
  (timeline_id q, record q).

(** The message [append_wal_record] hands to [send] for a request read as
    [read], if the request fits the buffer. *)
Definition wire (h : WalAppendRequest * WalRecord.t) : option string :=
  let '(len, msg) :=
    Safekeeper.serialize_append_request (timeline_id (fst h)) (snd h) 4096 in
  if len <? 0 then None else Some msg.

End Pipeline.

(** ** connection_pool.cc *)

Module Pool.

Inductive Kind := pageserver | safekeeper.

(** The members of [ConnectionPool] that belong to one kind of client.
    A [std::unique_ptr] in a container is the identity it points to. *)
Record KindState := mkKindState {
  available_connections : list Conn;   (* std::queue, front first *)
  all_connections : list Conn;         (* std::vector *)
  max_connections : Z;                 (* size_t *)
  min_connections : Z;                 (* size_t *)
  requests : Z;                        (* std::atomic<uint64_t> *)
  cache_hits : Z                       (* std::atomic<uint64_t> *)
}.

Record ConnectionPool := mkConnectionPool {
  pageserver_state : KindState;
  safekeeper_state : KindState
}.

Definition ConnectionPool_new (min_pageserver max_pageserver
                               min_safekeeper max_safekeeper : Z) :=
  mkConnectionPool (mkKindState [] [] max_pageserver min_pageserver 0 0)
                   (mkKindState [] [] max_safekeeper min_safekeeper 0 0).

Definition kind_state (kind : Kind) (pool : ConnectionPool) : KindState :=
  match kind with
  | pageserver => pageserver_state pool
  | safekeeper => safekeeper_state pool
  end.

Definition set_kind_state (kind : Kind) (k : KindState) (pool : ConnectionPool) :=
  match kind with
  | pageserver => mkConnectionPool k (safekeeper_state pool)
  | safekeeper => mkConnectionPool (pageserver_state pool) k
  end.

Definition set_lists (available all : list Conn) (k : KindState) :=
  mkKindState available all (max_connections k) (min_connections k)
              (requests k) (cache_hits k).
Definition count_request (k : KindState) :=
  mkKindState (available_connections k) (all_connections k) (max_connections k)
              (min_connections k) (wrap64 (requests k + 1)) (cache_hits k).
Definition count_hit (k : KindState) :=
  mkKindState (available_connections k) (all_connections k) (max_connections k)
              (min_connections k) (requests k) (wrap64 (cache_hits k + 1)).

(** The body shared by [get_pageserver_connection] and
    [get_safekeeper_connection], which are the same code over the members
    of their kind.  [created] is what [create_*_connection] returns if it
    is called: a fresh client, or null when construction throws.  [k] is
    the state of the pool as the wait on the condition variable leaves it:
    the wait ends well exactly when its predicate, evaluated under the mutex,
    finds the queue non-empty, and times out otherwise.  With no other
    thread at work that is the state at the call. *)
Definition get_connection_of (created : option Conn) (timeout : Z)
    (k : KindState) : option Conn * KindState :=
  let k := count_request k in
  match available_connections k with
  | [] =>
    (* Timeout - try to create new connection if under limit *)
    if Z.of_nat (List.length (all_connections k)) <? max_connections k then
      (* all_*_connections.size() < max_*_connections *)
      match created with
      | Some client =>
        (Some client,
         set_lists (available_connections k) (all_connections k ++ [client]) k)
      | None => (None, k)
      end
    else (None, k)
  | connection :: rest =>
    (* Get connection from pool *)
    (Some connection, count_hit (set_lists rest (all_connections k) k))
  end.

(** [get_stats]: the total it reports for a kind is the size of the
    managed vector. *)
Definition total (k : KindState) : Z := Z.of_nat (List.length (all_connections k)).

(** The body shared by [return_pageserver_connection] and
    [return_safekeeper_connection]. *)
Definition return_connection_of (client : option Conn) (k : KindState)
  : KindState :=
  match client with
  | None => k
  | Some c =>
    match list_find (fun ptr => ptr = c) (all_connections k) with
    | Some (it, ptr) =>
      set_lists (available_connections k ++ [ptr])
                (delete it (all_connections k)) k
    | None => k   (* warning: unknown connection *)
    end
  end.

Definition get_connection (kind : Kind) (created : option Conn) (timeout : Z)
    (pool : ConnectionPool) : option Conn * ConnectionPool :=
  let '(client, k) := get_connection_of created timeout (kind_state kind pool) in
  (client, set_kind_state kind k pool).

Definition return_connection (kind : Kind) (client : option Conn)
    (pool : ConnectionPool) : ConnectionPool :=
  set_kind_state kind (return_connection_of client (kind_state kind pool)) pool.

Definition get_pageserver_connection := get_connection pageserver.
Definition get_safekeeper_connection := get_connection safekeeper.
Definition return_pageserver_connection := return_connection pageserver.
Definition return_safekeeper_connection := return_connection safekeeper.

(** The clients the [i]-th iterations of a warm-up loop manage to create. *)
Definition created_by (create : nat -> option Conn) (k : KindState) : list Conn :=
  omap create (seq 0 (Z.to_nat (min_connections k))).

(** The pageserver block of [warm_connections], one [let] per loop. *)
Definition warm_pageserver (create : nat -> option Conn) (k : KindState)
  : KindState :=
  (* Create minimum pageserver connections *)
  let available1 := available_connections k ++ created_by create k in
  (* Move to managed list *)
  let all1 := all_connections k ++ available1 in
  (* Add back to available: every managed pointer is released into the
     queue, and the vector of null pointers is cleared *)
  let available2 := all1 in
  (* Rebuild managed list *)
  let all2 := available2 in
  (* Add back to available for use *)
  let available3 := all2 in
  set_lists available3 all2 k.

(** The safekeeper block of [warm_connections]. *)
Definition warm_safekeeper (create : nat -> option Conn) (k : KindState)
  : KindState :=
  let all1 := all_connections k ++ created_by create k in
  (* Add to available pool *)
  let available1 := available_connections k ++ all1 in
  set_lists available1 all1 k.

Definition warm_connections (create_pageserver create_safekeeper : nat -> option Conn)
    (pool : ConnectionPool) : ConnectionPool :=
  mkConnectionPool (warm_pageserver create_pageserver (pageserver_state pool))
                   (warm_safekeeper create_safekeeper (safekeeper_state pool)).

(** [initialize]: warms the pool and starts the health-check thread;
    [thread_started] tells whether constructing the thread went without an
    exception, which is all that decides the value returned. *)
Definition initialize (create_pageserver create_safekeeper : nat -> option Conn)
    (thread_started : bool) (pool : ConnectionPool) : bool * ConnectionPool :=
  (thread_started, warm_connections create_pageserver create_safekeeper pool).

(** What [serverless_init_func] does to the pool: it builds it for 5 to 20
    pageserver and 3 to 10 safekeeper connections, initializes it, and, when
    that went well, warms it "for zero cold start". *)
Definition serverless_init_pool
    (create1_pageserver create1_safekeeper
     create2_pageserver create2_safekeeper : nat -> option Conn)
    (thread_started : bool) : Z * ConnectionPool :=
  let pool := ConnectionPool_new 5 20 3 10 in
  let '(ok, pool) :=
    initialize create1_pageserver create1_safekeeper thread_started pool in
  if negb ok then (1, pool)
  else (0, warm_connections create2_pageserver create2_safekeeper pool).

(** [n] acquires in a row, none of them released; [created] answers the
    [i]-th one should it have to create a connection. *)
Fixpoint acquire_many (kind : Kind) (created : nat -> option Conn) (n : nat)
    (pool : ConnectionPool) : list (option Conn) * ConnectionPool :=
  match n with
  | O => ([], pool)
  | S n' =>
    let '(client, pool) := get_connection kind (created O) 1000 pool in
    let '(clients, pool) :=
      acquire_many kind (fun i => created (S i)) n' pool in
    (client :: clients, pool)
  end.

(** The wrappers [PooledPageserverConnection] and
    [PooledSafekeeperConnection] of connection_pool.h, which are the same
    code for the two kinds. *)
Record PooledConnection := mkPooledConnection {
  pooled_client : option Conn;
  pooled_pool : bool;          (* the pool pointer is non-null *)
  returned : bool
}.

Definition PooledConnection_new (c : option Conn) (p : bool) : PooledConnection :=
  mkPooledConnection c p false.

(** The destructor. *)
Definition pooled_destroy (kind : Kind) (w : PooledConnection)
    (pool : ConnectionPool) : ConnectionPool :=
  if negb (returned w) && bool_decide (is_Some (pooled_client w)) && pooled_pool w
  then return_connection kind (pooled_client w) pool
  else pool.

Definition return_early (kind : Kind) (w : PooledConnection)
    (pool : ConnectionPool) : PooledConnection * ConnectionPool :=
  if negb (returned w) && bool_decide (is_Some (pooled_client w)) && pooled_pool w
  then (mkPooledConnection (pooled_client w) (pooled_pool w) true,
        return_connection kind (pooled_client w) pool)
  else (w, pool).

(** The move constructor: returns the new wrapper and what is left of the
    one moved from. *)
Definition pooled_move (other : PooledConnection)
  : PooledConnection * PooledConnection :=
  (mkPooledConnection (pooled_client other) (pooled_pool other) (returned other),
   mkPooledConnection None (pooled_pool other) true).

End Pool.

(** ** ha_serverless.cc: the packed cache key *)

Definition page_key (page_id : PageId) : Z :=
  Z.lor (wrap64 (Z.shiftl (timeline_id page_id) 32)) (page_number page_id).

(** ** ha_serverless.cc: the page cache of a table handler *)

Module Handler.

Record CachedPage := mkCachedPage {
  page_id : PageId;
  data : list byte;        (* char*, 16KB page data *)
  lsn : Z;                 (* LSN when page was cached *)
  dirty : bool;            (* Whether page has been modified *)
  last_access : Z          (* time_t, for LRU eviction *)
}.

Definition MAX_CACHED_PAGES : Z := 1024.

Record ha_serverless := mk_ha_serverless {
  current_timeline : TimelineId.t;
  page_cache : gmap Z CachedPage;   (* std::unordered_map<uint64_t, CachedPage*> *)
  lru_list : list Z;                (* std::list<uint64_t>, front first *)
  current_lsn : Z
}.

Definition ha_serverless_new : ha_serverless :=
  mk_ha_serverless (TimelineId.mk 0) ∅ [] 0.

Definition set_page_cache (m : gmap Z CachedPage) (h : ha_serverless) :=
  mk_ha_serverless (current_timeline h) m (lru_list h) (current_lsn h).
Definition set_lru_list (l : list Z) (h : ha_serverless) :=
  mk_ha_serverless (current_timeline h) (page_cache h) l (current_lsn h).
Definition set_current_lsn (n : Z) (h : ha_serverless) :=
  mk_ha_serverless (current_timeline h) (page_cache h) (lru_list h) n.
Definition set_last_access (t : Z) (p : CachedPage) :=
  mkCachedPage (page_id p) (data p) (lsn p) (dirty p) t.

(** What the handler calls outside itself: the clock, the global
    connection pool, and the clients the pool hands out.  The wrappers
    [PooledPageserverConnection] and [PooledSafekeeperConnection] return
    their client when they go out of scope. *)
Inductive Call :=
| call_time
| call_get_pageserver_connection
| call_read_page (client : Conn) (page_id : PageId) (buffer : list byte)
                 (buffer_size : Z)
| call_return_pageserver_connection (client : Conn)
| call_get_safekeeper_connection
| call_append_wal_record (client : Conn) (timeline_id : TimelineId.t)
                         (record : WalRecord.t)
| call_return_safekeeper_connection (client : Conn).

(** [call_read_page] answers the status and the buffer after the call. *)
Definition ans (c : Call) : Type :=
  match c with
  | call_time => Z
  | call_get_pageserver_connection => option Conn
  | call_read_page _ _ _ _ => (Z * list byte)%type
  | call_return_pageserver_connection _ => unit
  | call_get_safekeeper_connection => option Conn
  | call_append_wal_record _ _ _ => Z
  | call_return_safekeeper_connection _ => unit
  end.

Definition Env : Type := forall (history : list Call) (c : Call), ans c.

(** The calls made so far and the global counter [perf_stats.network_calls]
    (the latency counters measure real time and are left out). *)
Record World := mkWorld {
  trace : list Call;
  network_calls : Z
}.

Section Env.

Variable env : Env.

Definition HM : Type -> Type := State (ha_serverless * World).

Definition call (c : Call) : HM (ans c) :=
  fun s => (env (trace (snd s)) c,
            (fst s, mkWorld (trace (snd s) ++ [c]) (network_calls (snd s)))).

Definition count_network_call : HM unit :=
  modify (fun s => (fst s, mkWorld (trace (snd s))
                                   (wrap64 (network_calls (snd s) + 1)))).

Definition this : HM ha_serverless := gets fst.

Definition update (f : ha_serverless -> ha_serverless) : HM unit :=
  modify (fun s => (f (fst s), snd s)).

Open Scope state_scope.

Definition write_page_to_safekeeper (page_id : PageId) (data : list byte)
  : HM Z :=
  run count_network_call;
  (* Get connection from pool *)
  do client <- call call_get_safekeeper_connection;
  match client with
  | None => ret HA_ERR_GENERIC
  | Some client =>
    (* Create WAL record for page write *)
    do h <- this;
    let record := WalRecord.mk (current_lsn h) MARIADB_PAGE_SIZE data in
    run update (set_current_lsn (wrap64 (current_lsn h + 1)));
    do result <- call (call_append_wal_record client (current_timeline h) record);
    run call (call_return_safekeeper_connection client);
    ret result
  end.

Definition evict_page_from_cache (page_key : Z) : HM unit :=
  do h <- this;
  run match page_cache h !! page_key with
      | Some page =>
        run (if dirty page then
               (* Write dirty page before eviction *)
               run write_page_to_safekeeper (page_id page) (data page);
               ret tt
             else ret tt);
        update (fun h => set_page_cache (delete page_key (page_cache h)) h)
      | None => ret tt
      end;
  (* Remove from LRU list *)
  update (fun h => set_lru_list (filter (fun k => k <> page_key) (lru_list h)) h).

(** Returns the status and the caller's buffer after the call.  On a
    full cache with an empty [lru_list], [lru_list.back()] has no
    defined behaviour; nothing is evicted here in that case. *)
Definition read_page_from_cache_or_pageserver (page_id : PageId)
    (buffer : list byte) : HM (Z * list byte) :=
  let key := page_key page_id in
  do h <- this;
  (* Check cache first *)
  match page_cache h !! key with
  | Some page =>
    let buffer := memcpy buffer (data page) MARIADB_PAGE_SIZE in
    do now <- call call_time;
    run update (set_page_cache (<[key := set_last_access now page]> (page_cache h)));
    ret (0, buffer)
  | None =>
    (* Not in cache, fetch from pageserver using connection pool *)
    run count_network_call;
    do client <- call call_get_pageserver_connection;
    match client with
    | None => ret (HA_ERR_GENERIC, buffer)
    | Some client =>
      do '(result, buffer) <-
        call (call_read_page client page_id buffer MARIADB_PAGE_SIZE);
      run (if decide (result = 0) then
             (* Add to cache *)
             do h <- this;
             run (if MAX_CACHED_PAGES <=? Z.of_nat (size (page_cache h)) then
                    (* Evict LRU page *)
                    match last (lru_list h) with
                    | Some back => evict_page_from_cache back
                    | None => ret tt
                    end
                  else ret tt);
             do now <- call call_time;
             let new_page :=
               mkCachedPage page_id
                            (memcpy (malloc MARIADB_PAGE_SIZE) buffer
                                    MARIADB_PAGE_SIZE)
                            0 false now in
             run update (fun h => set_page_cache (<[key := new_page]> (page_cache h)) h);
             update (fun h => set_lru_list (key :: lru_list h) h)
           else ret tt);
      run call (call_return_pageserver_connection client);
      ret (result, buffer)
    end
  end.

(** [close]: the entries are visited in the order of the map. *)
Fixpoint flush_dirty_pages (entries : list (Z * CachedPage)) : HM unit :=
  match entries with
  | [] => ret tt
  | (_, page) :: entries' =>
    run (if dirty page then
           (* Write dirty page to safekeeper *)
           run write_page_to_safekeeper (page_id page) (data page);
           ret tt
         else ret tt);
    flush_dirty_pages entries'
  end.

Definition close : HM Z :=
  do h <- this;
  (* Flush any dirty pages from cache *)
  run flush_dirty_pages (map_to_list (page_cache h));
  ret 0.

(** [~ha_serverless]: every entry is deleted and the map cleared; the
    list goes with the object. *)
Definition destroy : HM unit :=
  (* Clean up page cache *)
  run update (set_page_cache ∅);
  update (set_lru_list []).

(** A sequence of page reads by one session; returns the statuses. *)
Fixpoint read_pages (page_ids : list PageId) : HM (list Z) :=
  match page_ids with
  | [] => ret []
  | page_id :: rest =>
    do '(result, _) <-
      read_page_from_cache_or_pageserver page_id (malloc MARIADB_PAGE_SIZE);
    do results <- read_pages rest;
    ret (result :: results)
  end.

End Env.

(** The write-backs in a trace: the appends the handler asked for. *)
Definition write_backs (tr : list Call) : list (TimelineId.t * WalRecord.t) :=
  omap (fun c => match c with
                 | call_append_wal_record _ tl r => Some (tl, r)
                 | _ => None
                 end) tr.

(** The attempts to write back: each [write_page_to_safekeeper] starts by
    asking the pool for a safekeeper connection. *)
Definition write_back_attempts (tr : list Call) : nat :=
  List.length (omap (fun c => match c with
                              | call_get_safekeeper_connection => Some tt
                              | _ => None
                              end) tr).

End Handler.

(** ** ha_serverless.cc: table and row operations *)

Module Engine.
Import Handler.

(** Handler error code of MariaDB's [my_base.h]. *)
Definition HA_ERR_INTERNAL_ERROR : Z := 122.

Section Chars.

(** Whether plain [char] is a signed type, which the platform decides. *)
Variable char_is_signed : bool.

(** [int c = *str]. *)
Definition char_to_int (b : byte) : Z :=
  let n := Z.of_N (Byte.to_N b) in
  if char_is_signed && (128 <=? n) then n - 256 else n.

(** The loop of [hash_string]; the string ends at its first NUL, and at the
    end of the list. *)
Fixpoint hash_loop (hash : Z) (str : list byte) : Z :=
  match str with
  | [] => hash
  | b :: str' =>
    let c := char_to_int b in
    if decide (c = 0) then hash
    else hash_loop (wrap64 (wrap64 (wrap64 (Z.shiftl hash 5) + hash) + c)) str'
  end.

Definition hash_string (str : list byte) : Z := hash_loop 5381 str.

Definition initialize_timeline (table_name : list byte) (h : ha_serverless)
  : Z * ha_serverless :=
  (* Generate timeline ID from table name; start from LSN 1 *)
  (0, mk_ha_serverless (TimelineId.mk (hash_string table_name))
                       (page_cache h) (lru_list h) 1).

(** [pool] tells whether [global_connection_pool] is set. *)
Definition ensure_pageserver_connection (pool : bool) : Z :=
  if negb pool then HA_ERR_GENERIC else 0.

Definition ensure_safekeeper_connection (pool : bool) : Z :=
  if negb pool then HA_ERR_GENERIC else 0.

Definition open (name : list byte) (pool : bool) (h : ha_serverless)
  : Z * ha_serverless :=
  let '(result, h) := initialize_timeline name h in
  if decide (result <> 0) then (result, h)
  else
    let result := ensure_pageserver_connection pool in
    if decide (result <> 0) then (result, h)
    else
      let result := ensure_safekeeper_connection pool in
      if decide (result <> 0) then (result, h)
      else (0, h).

(** [create], on the global pool.  [created_*] is what the pool's fallback
    creation returns if it comes to that, and [*_create_timeline] what the
    client handed out answers. *)
Definition create (name : list byte)
    (created_pageserver created_safekeeper : option Conn)
    (pageserver_create_timeline safekeeper_create_timeline
       : Conn -> TimelineId.t -> Z)
    (pool : Pool.ConnectionPool) : Z * Pool.ConnectionPool :=
  let timeline_id := TimelineId.mk (hash_string name) in
  (* Obtain a pageserver connection from the pool *)
  let '(pageserver_conn, pool) :=
    Pool.get_pageserver_connection created_pageserver 1000 pool in
  match pageserver_conn with
  | None => (HA_ERR_INTERNAL_ERROR, pool)
  | Some pageserver_conn =>
    if decide (pageserver_create_timeline pageserver_conn timeline_id <> 0)
    then (HA_ERR_GENERIC, pool)
    else
      (* Obtain a safekeeper connection from the pool *)
      let '(safekeeper_conn, pool) :=
        Pool.get_safekeeper_connection created_safekeeper 1000 pool in
      match safekeeper_conn with
      | None => (HA_ERR_INTERNAL_ERROR, pool)
      | Some safekeeper_conn =>
        if decide (safekeeper_create_timeline safekeeper_conn timeline_id <> 0)
        then (HA_ERR_GENERIC, pool)
        else (0, pool)
      end
  end.

Definition delete_table (pageserver_client : Pageserver.PageserverClient)
    (name : list byte) : Z :=
  let timeline_id := TimelineId.mk (hash_string name) in
  let result := Pageserver.delete_timeline pageserver_client timeline_id in
  if decide (result <> 0) then HA_ERR_GENERIC else 0.

Definition rename_table (pageserver_client : Pageserver.PageserverClient)
    (from to : list byte) : Z :=
  let _ := delete_table pageserver_client from in
  0.

End Chars.

(** The handler together with the safekeeper client it points to and the
    calls that client has made. *)
Definition RowM : Type -> Type :=
  State (ha_serverless * (Safekeeper.SafekeeperClient * list Safekeeper.Syscall)).

(** The body shared by [write_row], [update_row] and [delete_row]:
    [reclength] is [table->s->reclength], narrowed to the 32 bits of
    [WalRecord::length]. *)
Definition append_row (reclength : Z) (buf : list byte) : RowM Z :=
  fun s =>
    let h := fst s in
    let record := WalRecord.mk (current_lsn h) (reclength mod 2 ^ 32) buf in
    let h := set_current_lsn (wrap64 (current_lsn h + 1)) h in
    let '(result, sk) :=
      Safekeeper.append_wal_record_async (current_timeline h) record (snd s) in
    (if decide (result <> 0) then HA_ERR_GENERIC else 0, (h, sk)).

Definition write_row (reclength : Z) (buf : list byte) : RowM Z :=
  append_row reclength buf.

Definition update_row (reclength : Z) (old_data new_data : list byte) : RowM Z :=
  (* For simplicity, just write new data for now *)
  append_row reclength new_data.

Definition delete_row (reclength : Z) (buf : list byte) : RowM Z :=
  append_row reclength buf.

Inductive RowOp :=
| op_write (buf : list byte)
| op_update (old_data new_data : list byte)
| op_delete (buf : list byte).

(** The row image a mutation logs. *)
Definition logged (op : RowOp) : list byte :=
  match op with
  | op_write buf => buf
  | op_update _ new_data => new_data
  | op_delete buf => buf
  end.

Definition row_op (reclength : Z) (op : RowOp) : RowM Z :=
  match op with
  | op_write buf => write_row reclength buf
  | op_update old_data new_data => update_row reclength old_data new_data
  | op_delete buf => delete_row reclength buf
  end.

(** A sequence of row mutations on one table; returns the statuses. *)
Fixpoint row_ops (reclength : Z) (ops : list RowOp) : RowM (list Z) :=
  match ops with
  | [] => ret []
  | op :: ops' =>
    bind (row_op reclength op) (fun r =>
    bind (row_ops reclength ops') (fun rs =>
    ret (r :: rs)))
  end.

End Engine.

(* ===================================================================== *)
(** * Properties *)
(* ===================================================================== *)

(** ** Strings and [snprintf] *)

Lemma substring_length n s :
  String.length (String.substring 0 n s) = Nat.min n (String.length s).
Proof.
  revert s. induction n as [|n IH]; intros [|a s]; simpl; try done.
  by rewrite IH.
Qed.

Lemma substring_whole n s :
  (String.length s <= n)%nat -> String.substring 0 n s = s.
Proof.
  revert s. induction n as [|n IH]; intros [|a s]; simpl; try done; [lia|].
  intros H. rewrite IH; [done|lia].
Qed.

Lemma string_length_app s1 s2 :
  String.length (s1 +:+ s2) = (String.length s1 + String.length s2)%nat.
Proof. induction s1 as [|a s1 IH]; simpl; [done|]. by rewrite IH. Qed.

Lemma string_of_list_byte_length l :
  String.length (String.string_of_list_byte l) = List.length l.
Proof.
  unfold String.string_of_list_byte.
  induction l as [|b l IH]; simpl; [done|]. by rewrite IH.
Qed.

Lemma to_int_small z : 0 <= z < 2 ^ 31 -> to_int z = z.
Proof. intros Hz. unfold to_int. rewrite Z.mod_small; lia. Qed.

Lemma substring_nonempty n s :
  (0 < n)%nat -> (String.substring 0 n s = "" <-> s = "").
Proof.
  intros Hn. destruct n as [|n]; [lia|]. by destruct s.
Qed.

(** ** The packed cache key *)

Section PageKey.

Lemma testbit_small a k n : 0 <= a < 2 ^ k -> k <= n -> Z.testbit a n = false.
Proof.
  intros [Ha Hk] Hn.
  destruct (decide (a = 0)) as [->|Hne]; [apply Z.bits_0|].
  apply Z.bits_above_log2; [lia|].
  assert (0 <= k) by (destruct (decide (0 <= k)); [done|];
    rewrite Z.pow_neg_r in Hk; lia).
  assert (Z.log2 a < k) by (apply Z.log2_lt_pow2; lia). lia.
Qed.

Lemma shifted_timeline tl :
  wrap64 (Z.shiftl tl 32) = (tl mod 2 ^ 32) * 2 ^ 32.
Proof.
  unfold wrap64. rewrite Z.shiftl_mul_pow2 by lia.
  change (2 ^ 64) with (2 ^ 32 * 2 ^ 32).
  rewrite Z.mul_mod_distr_r by lia. done.
Qed.

Lemma page_key_sum p :
  PageId_ok p ->
  page_key p = wrap64 (Z.shiftl (timeline_id p) 32) + page_number p.
Proof.
  intros [_ Hpn]. unfold page_key.
  rewrite <- Z.lxor_lor, <- Z.add_nocarry_lxor; [done| |].
  all: rewrite shifted_timeline; apply Z.bits_inj'; intros n Hn;
    rewrite Z.land_spec, Z.bits_0;
    destruct (decide (n < 32));
    [ rewrite Z.mul_pow2_bits_low by lia; done
    | rewrite (testbit_small (page_number p) 32 n) by lia;
      apply andb_false_r ].
Qed.

Lemma page_key_parts p :
  PageId_ok p ->
  page_key p mod 2 ^ 32 = page_number p /\
  page_key p / 2 ^ 32 = timeline_id p mod 2 ^ 32.
Proof.
  intros Hp. rewrite (page_key_sum p Hp), shifted_timeline.
  destruct Hp as [_ Hpn]. split.
  - rewrite Z.add_comm, Z.mod_add by lia. apply Z.mod_small; lia.
  - rewrite Z.add_comm, Z.div_add by lia.
    rewrite Z.div_small by lia. lia.
Qed.

(** C9.  Two distinct PageIds (a 64-bit timeline id and a page number
    below 2^32 each) whose timeline ids, when they differ, still differ
    after the 32-bit left shift on 64 bits, have different packed keys. *)
Theorem page_key_injective p q :
  PageId_ok p -> PageId_ok q ->
  (timeline_id p <> timeline_id q ->
   wrap64 (Z.shiftl (timeline_id p) 32) <> wrap64 (Z.shiftl (timeline_id q) 32)) ->
  p <> q ->
  page_key p <> page_key q.
Proof.
  intros Hp Hq Hshift Hne Hkey.
  destruct (page_key_parts p Hp) as [Hlo Hhi].
  destruct (page_key_parts q Hq) as [Hlo' Hhi'].
  rewrite Hkey in Hlo, Hhi.
  assert (page_number p = page_number q) as Hpn by congruence.
  assert (timeline_id p = timeline_id q) as Htl.
  { destruct (decide (timeline_id p = timeline_id q)) as [|Hd]; [done|].
    exfalso. apply (Hshift Hd). rewrite !shifted_timeline. congruence. }
  apply Hne. destruct p, q; simpl in *; congruence.
Qed.

Lemma page_key_injective_witness :
  page_key (mkPageId 7 1) <> page_key (mkPageId 9 1).
Proof.
  apply page_key_injective; unfold PageId_ok; simpl; try lia.
  - intros _. vm_compute. discriminate.
  - discriminate.
Defined.

(** X1.  Which pages share a cache key: two PageIds have the same packed
    key exactly when their page numbers are equal and their timeline ids
    agree on the low 32 bits.  The high 32 bits of the timeline id have no
    part in the key. *)
Theorem page_key_collisions p q :
  PageId_ok p -> PageId_ok q ->
  page_key p = page_key q <->
  page_number p = page_number q /\
  timeline_id p mod 2 ^ 32 = timeline_id q mod 2 ^ 32.
Proof.
  intros Hp Hq. split.
  - intros Hkey.
    destruct (page_key_parts p Hp) as [Hlo Hhi].
    destruct (page_key_parts q Hq) as [Hlo' Hhi'].
    rewrite Hkey in Hlo, Hhi. split; congruence.
  - intros [Hpn Htl].
    rewrite (page_key_sum p Hp), (page_key_sum q Hq), !shifted_timeline.
    congruence.
Qed.

Lemma page_key_collisions_witness :
  page_key (mkPageId 1 5) = page_key (mkPageId (1 + 2 ^ 32) 5).
Proof.
  apply page_key_collisions; unfold PageId_ok; simpl; try lia.
  split; reflexivity.
Defined.

End PageKey.

Module PageserverFacts.
Import Pageserver.

(** The body a transfer delivered, as the write callback accumulates it. *)
Definition body (o : CurlOutcome) : list byte := concat (chunks o).

(** The responses [read_page] accepts: the transfer ended well with status
    200, delivered at least one chunk, and the body fits the buffer. *)
Definition accepted (c : PageserverClient) (o : CurlOutcome) (buffer_size : Z)
  : bool :=
  curl_handle c && curl_ok o && bool_decide (response_code o = 200)
    && bool_decide (chunks o <> [])
    && bool_decide (Z.of_nat (List.length (body o)) <= buffer_size).

Lemma deliver_chunks chs : forall r,
  deliver r chs
  = match chs with
    | [] => r
    | _ => mkHttpResponse (Some (default [] (resp_data r) ++ concat chs))
                          (resp_size r + Z.of_nat (List.length (concat chs)))
    end.
Proof.
  unfold deliver.
  induction chs as [|ch chs IH]; intros r; [done|].
  simpl. rewrite IH. unfold write_callback. simpl.
  rewrite Z.mul_1_l, Nat2Z.id, firstn_all.
  destruct chs as [|ch' chs]; simpl.
  - by rewrite app_nil_r.
  - f_equal.
    + by rewrite <- !app_assoc.
    + rewrite !length_app. lia.
Qed.

Lemma memcpy_whole (dst src : list byte) :
  memcpy dst src (Z.of_nat (List.length src)) = src ++ drop (List.length src) dst.
Proof. unfold memcpy. rewrite Nat2Z.id. by rewrite firstn_all. Qed.

Lemma memset_tail (dst src : list byte) (n : Z) :
  Z.of_nat (List.length src) <= n ->
  List.length dst = Z.to_nat n ->
  memset (src ++ drop (List.length src) dst) (Z.of_nat (List.length src)) x00
         (n - Z.of_nat (List.length src))
  = src ++ replicate (Z.to_nat (n - Z.of_nat (List.length src))) x00.
Proof.
  intros Hle Hlen. unfold memset. rewrite Nat2Z.id.
  rewrite take_app_length. f_equal.
  rewrite (drop_ge (src ++ _)); [by rewrite app_nil_r|].
  rewrite length_app, length_drop. lia.
Qed.

(** C3, as the code has it.  With a buffer of [buffer_size] bytes,
    [read_page] either returns 0 with the whole buffer written -- the body
    of the response followed by zero bytes up to [buffer_size] -- or returns
    -1 and leaves the buffer as it was.  It returns 0 exactly for the
    accepted responses; a body shorter than the buffer is accepted and
    padded, and a transfer error, a status other than 200, a response
    without body or a body longer than the buffer is an error. *)
Theorem read_page_full_or_error c curl page_id buffer buffer_size :
  Z.of_nat (List.length buffer) = buffer_size ->
  let o := curl (build_page_url c page_id) in
  read_page c curl page_id buffer buffer_size
  = if accepted c o buffer_size
    then (0, body o ++ replicate (Z.to_nat (buffer_size
                                   - Z.of_nat (List.length (body o)))) x00)
    else (-1, buffer).
Proof.
  intros Hlen o. unfold read_page, make_http_request, accepted, body.
  fold o. destruct (curl_handle c); simpl; [|done].
  rewrite deliver_chunks.
  destruct (chunks o) as [|ch chs] eqn:Hch; destruct (curl_ok o); simpl;
    rewrite ?andb_false_r; try done.
  all: set (d := ch ++ concat chs) in *.
  all: repeat (case_decide || case_bool_decide); simpl; try done;
    try (exfalso; naive_solver lia).
  all: rewrite !Z.add_0_l, memcpy_whole; f_equal.
  - apply memset_tail; lia.
  - assert (Z.of_nat (List.length d) = buffer_size) as Heq by lia.
    rewrite Heq, Z.sub_diag. simpl. rewrite app_nil_r.
    rewrite drop_ge by lia. by rewrite app_nil_r.
Qed.

Definition local_client : PageserverClient :=
  mkPageserverClient true "http://localhost:9997" 30.

(** A page service that answers every request with status 200 and a body
    of one byte. *)
Definition curl_one_byte : string -> CurlOutcome :=
  fun _ => mkCurlOutcome [[x41]] true 200.

Lemma read_page_full_or_error_witness :
  read_page local_client curl_one_byte (mkPageId 1 0)
            (replicate 4 xff) 4
  = (0, [x41; x00; x00; x00]).
Proof.
  apply (read_page_full_or_error local_client curl_one_byte (mkPageId 1 0)
           (replicate 4 xff) 4).
  reflexivity.
Defined.

(** C3, counterexample to the claim as stated.  The response carries one
    byte instead of a 16 KiB page; [read_page] reports success and hands
    back that byte followed by 16383 zero bytes. *)
Lemma short_response_is_accepted :
  read_page local_client curl_one_byte (mkPageId 1 0)
            (replicate (Z.to_nat MARIADB_PAGE_SIZE) xff) MARIADB_PAGE_SIZE
  = (0, x41 :: replicate (Z.to_nat 16383) x00).
Proof. vm_compute. reflexivity. Qed.

(** ** Timelines *)

(** The transfers that end well with status 200. *)
Definition fetched (c : PageserverClient) (o : CurlOutcome) : bool :=
  curl_handle c && curl_ok o && bool_decide (response_code o = 200).

Lemma make_http_request_status c curl url r :
  fst (make_http_request c curl url r)
  = if fetched c (curl url) then 0 else -1.
Proof.
  unfold make_http_request, fetched.
  destruct (curl_handle c); simpl; [|done].
  destruct (curl_ok (curl url)); simpl; [|done].
  by repeat (case_decide || case_bool_decide).
Qed.

(** X2.  [get_timeline_info] succeeds exactly when the request for the
    timeline ended well with status 200 and delivered a body.  The body is
    not parsed: on success the latest LSN reported is 1 whatever the service
    answered, and on failure the caller's LSN is left as it was. *)
Theorem get_timeline_info_reports_lsn_one c curl tl latest_lsn :
  let o := curl (build_timeline_url c tl) in
  get_timeline_info c curl tl latest_lsn
  = if fetched c o && bool_decide (chunks o <> [])
    then (0, 1) else (-1, latest_lsn).
Proof.
  intros o. unfold get_timeline_info, make_http_request, fetched. fold o.
  destruct (curl_handle c); simpl; [|done].
  rewrite deliver_chunks.
  destruct (chunks o) as [|ch chs] eqn:Hch; destruct (curl_ok o); simpl;
    rewrite ?andb_false_r; try done.
  all: repeat (case_decide || case_bool_decide); simpl; try done.
Qed.

(** X3.  [create_timeline] on the page service creates nothing: it asks
    for the timeline with the request [get_timeline_info] makes, and returns
    0 exactly when that request ended well with status 200.  So it succeeds
    whenever [get_timeline_info] does, that is, for a timeline that is
    already there. *)
Theorem create_timeline_only_looks_up c curl tl :
  create_timeline c curl tl
  = (if fetched c (curl (build_timeline_url c tl)) then 0 else -1) /\
  (forall latest_lsn,
     fst (get_timeline_info c curl tl latest_lsn) = 0 ->
     create_timeline c curl tl = 0).
Proof.
  assert (create_timeline c curl tl
          = if fetched c (curl (build_timeline_url c tl)) then 0 else -1) as Hc.
  { unfold create_timeline.
    pose proof (make_http_request_status c curl (build_timeline_url c tl)
                  HttpResponse_new) as Hs.
    destruct (make_http_request _ _ _ _) as [result response].
    simpl in Hs. rewrite Hs.
    destruct (fetched c _); by case_decide. }
  split; [done|].
  intros latest_lsn. rewrite Hc. unfold get_timeline_info.
  pose proof (make_http_request_status c curl (build_timeline_url c tl)
                HttpResponse_new) as Hs.
  destruct (make_http_request _ _ _ _) as [result response].
  simpl in Hs. rewrite Hs.
  destruct (fetched c _); [done|].
  destruct (resp_data response); [case_decide|]; done.
Qed.

(** ** The URL of a page *)

Definition slash : Ascii.ascii := Ascii.ascii_of_nat 47.

Fixpoint no_slash (s : string) : Prop :=
  match s with
  | EmptyString => True
  | String a s' => a <> slash /\ no_slash s'
  end.

Lemma pretty_N_go_no_slash x : forall s,
  no_slash s -> no_slash (pretty_N_go x s).
Proof.
  induction (N.lt_wf_0 x) as [x _ IH]. intros s Hs.
  destruct (decide (x = 0%N)) as [->|Hx]; [by rewrite pretty_N_go_0|].
  rewrite pretty_N_go_step by lia.
  apply IH; [apply N.div_lt; lia|].
  split; [|done].
  unfold pretty_N_char. repeat case_match; discriminate.
Qed.

Lemma pretty_Z_no_slash z : 0 <= z -> no_slash (pretty z).
Proof.
  intros Hz. destruct z as [|x|x]; [by split| |lia].
  unfold pretty, pretty_Z, pretty, pretty_positive, pretty, pretty_N.
  rewrite decide_False by done. by apply pretty_N_go_no_slash.
Qed.

Lemma pretty_N_go_length k : forall x s,
  (x < 10 ^ N.of_nat k)%N ->
  (String.length (pretty_N_go x s) <= String.length s + k)%nat.
Proof.
  induction k as [|k IH]; intros x s Hx.
  { assert (x = 0%N) as -> by (simpl in Hx; lia).
    rewrite pretty_N_go_0. lia. }
  destruct (decide (x = 0%N)) as [->|Hne]; [rewrite pretty_N_go_0; lia|].
  rewrite pretty_N_go_step by lia.
  etrans; [apply IH|simpl; lia].
  rewrite Nat2N.inj_succ, N.pow_succ_r' in Hx.
  apply N.Div0.div_lt_upper_bound. lia.
Qed.

Lemma pretty_Z_length z k :
  0 <= z < 10 ^ Z.of_nat k -> (1 <= k)%nat ->
  (String.length (pretty z) <= k)%nat.
Proof.
  intros [Hlo Hhi] Hk. destruct z as [|x|x]; [simpl; lia| |lia].
  unfold pretty, pretty_Z, pretty, pretty_positive, pretty, pretty_N.
  rewrite decide_False by done.
  etrans; [apply (pretty_N_go_length k)|simpl; lia].
  assert (Z.of_N (N.pos x) < Z.of_N (10 ^ N.of_nat k)); [|lia].
  rewrite N2Z.inj_pow, nat_N_Z. simpl. lia.
Qed.

Lemma split_at_slash s1 : forall s2 t1 t2,
  no_slash s1 -> no_slash s2 ->
  s1 +:+ String slash t1 = s2 +:+ String slash t2 ->
  s1 = s2 /\ t1 = t2.
Proof.
  induction s1 as [|a s1 IH]; intros [|b s2] t1 t2 H1 H2 Heq; simpl in *.
  - by simplify_eq.
  - simplify_eq. by destruct H2.
  - simplify_eq. by destruct H1.
  - injection Heq as -> Heq. destruct H1 as [_ H1], H2 as [_ H2].
    destruct (IH s2 t1 t2 H1 H2 Heq) as [-> ->]. done.
Qed.

Lemma substring_prefix n : forall s t,
  (n <= String.length s)%nat ->
  String.substring 0 n (s +:+ t) = String.substring 0 n s.
Proof.
  induction n as [|n IH]; intros [|a s] t Hn; simpl in *; try done.
  - by destruct t.
  - lia.
  - rewrite IH; [done|lia].
Qed.

(** X4.  As long as the base URL leaves room in the 256 bytes of the URL
    buffer (218 characters at most), different pages are asked for under
    different URLs. *)
Theorem page_urls_are_distinct c p q :
  PageId_ok p -> PageId_ok q ->
  (String.length (base_url c) <= 218)%nat ->
  p <> q ->
  build_page_url c p <> build_page_url c q.
Proof.
  intros [Htp Hnp] [Htq Hnq] Hbase Hne Hurl. apply Hne.
  unfold build_page_url, snprintf in Hurl. cbn [fst] in Hurl.
  assert (forall z, 0 <= z < 2 ^ 64 -> (String.length (pretty z) <= 20)%nat) as H64.
  { intros z Hz. apply pretty_Z_length; [|lia].
    change (10 ^ Z.of_nat 20) with 100000000000000000000. lia. }
  assert (forall z, 0 <= z < 2 ^ 32 -> (String.length (pretty z) <= 10)%nat) as H32.
  { intros z Hz. apply pretty_Z_length; [|lia].
    change (10 ^ Z.of_nat 10) with 10000000000. lia. }
  pose proof (H64 _ Htp). pose proof (H64 _ Htq).
  pose proof (H32 _ Hnp). pose proof (H32 _ Hnq).
  rewrite !substring_whole in Hurl
    by (rewrite !string_length_app; cbn [String.length]; lia).
  apply (inj (String.app _)) in Hurl.
  apply (inj (String.app _)) in Hurl.
  change ("/" +:+ ?x) with (String slash x) in Hurl.
  apply split_at_slash in Hurl as [Htl Hpn];
    [|apply pretty_Z_no_slash; lia..].
  apply (inj pretty) in Htl. apply (inj pretty) in Hpn.
  destruct p, q; simpl in *; congruence.
Qed.

Lemma page_urls_are_distinct_witness :
  build_page_url local_client (mkPageId 1 0)
  <> build_page_url local_client (mkPageId 1 1).
Proof.
  apply page_urls_are_distinct.
  - unfold PageId_ok. simpl. lia.
  - unfold PageId_ok. simpl. lia.
  - apply Nat.leb_le. vm_compute. reflexivity.
  - discriminate.
Defined.

(** X5.  A base URL of 255 characters or more fills the URL buffer by
    itself: every page is then asked for under the same URL, the first 255
    characters of the base URL, and [read_page] answers every page
    alike. *)
Theorem long_base_url_hides_the_page c curl p q buffer buffer_size :
  (255 <= String.length (base_url c))%nat ->
  build_page_url c p = String.substring 0 255 (base_url c) /\
  read_page c curl p buffer buffer_size = read_page c curl q buffer buffer_size.
Proof.
  intros Hbase.
  assert (forall r, build_page_url c r = String.substring 0 255 (base_url c)) as Hurl.
  { intros r. unfold build_page_url, snprintf. cbn [fst].
    change (Z.to_nat (256 - 1)) with 255%nat. by apply substring_prefix. }
  split; [done|]. unfold read_page. by rewrite !Hurl.
Qed.

Lemma long_base_url_hides_the_page_witness :
  let c := mkPageserverClient true
             (String.string_of_list_ascii (replicate 255 (Ascii.ascii_of_nat 97)))
             30 in
  read_page c curl_one_byte (mkPageId 1 0) (replicate 4 xff) 4
  = read_page c curl_one_byte (mkPageId 2 7) (replicate 4 xff) 4.
Proof.
  intros c.
  apply (long_base_url_hides_the_page c curl_one_byte (mkPageId 1 0)
           (mkPageId 2 7) (replicate 4 xff) 4).
  apply Nat.leb_le. vm_compute. reflexivity.
Defined.

End PageserverFacts.

Module PoolFacts.
Import Pool.

Lemma kind_state_set kind k pool :
  kind_state kind (set_kind_state kind k pool) = k.
Proof. by destruct kind. Qed.

Definition other (kind : Kind) : Kind :=
  match kind with pageserver => safekeeper | safekeeper => pageserver end.

Lemma kind_state_set_other kind k pool :
  kind_state (other kind) (set_kind_state kind k pool)
  = kind_state (other kind) pool.
Proof. by destruct kind. Qed.

(** One acquire, in terms of the containers.  It counts one request.  When
    a connection is available it hands out the one at the front of the queue
    and counts one hit.  When none is (the wait times out) it counts no hit,
    and it returns a connection exactly when the size of the managed vector
    is below the maximum and the creation succeeds; that connection is the
    new one, which it adds to the managed vector.  Otherwise it returns
    null.  The other kind is left alone. *)
Lemma acquire_outcome kind created timeout pool :
  let k := kind_state kind pool in
  let '(client, pool') := get_connection kind created timeout pool in
  let k' := kind_state kind pool' in
  requests k' = wrap64 (requests k + 1) /\
  kind_state (other kind) pool' = kind_state (other kind) pool /\
  match available_connections k with
  | connection :: rest =>
    client = Some connection /\
    available_connections k' = rest /\
    all_connections k' = all_connections k /\
    cache_hits k' = wrap64 (cache_hits k + 1)
  | [] =>
    cache_hits k' = cache_hits k /\
    available_connections k' = [] /\
    if bool_decide (total k < max_connections k)
    then client = created /\
         all_connections k' = all_connections k ++ option_list created
    else client = None /\ all_connections k' = all_connections k
  end.
Proof.
  unfold get_connection, get_connection_of, total. simpl.
  destruct (available_connections (kind_state kind pool)) as [|c rest] eqn:Hav;
    simpl.
  - destruct (Z.ltb_spec (Z.of_nat (List.length (all_connections (kind_state kind pool))))
                         (max_connections (kind_state kind pool))) as [Hlt|Hge].
    + rewrite bool_decide_eq_true_2 by done.
      destruct created as [client|]; rewrite kind_state_set, kind_state_set_other;
        simpl; rewrite ?app_nil_r; done.
    + rewrite bool_decide_eq_false_2 by lia.
      rewrite kind_state_set, kind_state_set_other. done.
  - rewrite kind_state_set, kind_state_set_other. done.
Qed.

(** C6, a run on which an acquire creates a connection although the
    maximum is reached.  A pool for at most one connection of the kind
    starts empty.  The first acquire creates connection 1, which is then
    returned and acquired again.  Connection 1 is now in use and is the one
    connection the maximum allows.  The return has taken it out of the
    managed vector, whose size the acquire compares with the maximum, so
    the next acquire finds the size 0 below the maximum 1 and creates
    connection 2: two connections of the kind are in use at once. *)
Theorem acquire_exceeds_maximum kind :
  let pool0 := ConnectionPool_new 0 1 0 1 in
  let '(first, pool1) := get_connection kind (Some 1%positive) 1000 pool0 in
  let pool2 := return_connection kind first pool1 in
  let '(second, pool3) := get_connection kind (Some 2%positive) 1000 pool2 in
  let '(third, pool4) := get_connection kind (Some 2%positive) 1000 pool3 in
  max_connections (kind_state kind pool0) = 1 /\
  first = Some 1%positive /\
  second = Some 1%positive /\
  available_connections (kind_state kind pool3) = [] /\
  total (kind_state kind pool3) = 0 /\
  third = Some 2%positive /\
  total (kind_state kind pool4) = 1.
Proof.
  destruct kind; vm_compute; repeat split; reflexivity.
Qed.

Lemma list_find_elem (c : Conn) (l : list Conn) :
  c ∈ l -> exists it, list_find (fun ptr => ptr = c) l = Some (it, c).
Proof.
  intros Hin.
  destruct (list_find (fun ptr => ptr = c) l) as [[it ptr]|] eqn:Hf.
  - apply list_find_Some in Hf as (_ & -> & _). eauto.
  - apply list_find_None in Hf. rewrite Forall_forall in Hf.
    by specialize (Hf c Hin).
Qed.

(** C7, as the code has it.  A connection is acquired and at once
    returned while the pool still has it in its managed list.  The return
    puts it at the back of the queue of available connections.  The next
    acquire, with no other thread involved, creates nothing: it is a hit
    that hands out the front of that queue, which is the returned
    connection when no other connection was available. *)
Theorem release_then_acquire kind pool0 created0 timeout c pool created :
  get_connection kind created0 timeout pool0 = (Some c, pool) ->
  c ∈ all_connections (kind_state kind pool) ->
  let k := kind_state kind pool in
  let pool1 := return_connection kind (Some c) pool in
  let k1 := kind_state kind pool1 in
  let '(client, pool2) := get_connection kind created timeout pool1 in
  let k2 := kind_state kind pool2 in
  available_connections k1 = available_connections k ++ [c] /\
  client = Some (hd c (available_connections k)) /\
  all_connections k2 = all_connections k1 /\
  cache_hits k2 = wrap64 (cache_hits k + 1) /\
  (available_connections k = [] -> client = Some c).
Proof.
  intros _ Hin. simpl.
  destruct (list_find_elem c _ Hin) as [it Hfind].
  unfold get_connection, return_connection, return_connection_of.
  rewrite Hfind, !kind_state_set. unfold get_connection_of. simpl.
  destruct (available_connections (kind_state kind pool)) as [|c' rest];
    simpl; rewrite kind_state_set; done.
Qed.

(** A pool for two connections of each kind, warmed up with clients 1, 2
    (pageserver) and 11, 12 (safekeeper). *)
Definition warmed_pool : ConnectionPool :=
  warm_connections (fun i => Some (Pos.of_succ_nat i))
                   (fun i => Some (Pos.of_succ_nat (10 + i)))
                   (ConnectionPool_new 2 2 2 2).

Example warmed_pool_lists :
  available_connections (pageserver_state warmed_pool) = [1; 2]%positive /\
  all_connections (pageserver_state warmed_pool) = [1; 2]%positive /\
  available_connections (safekeeper_state warmed_pool) = [11; 12]%positive /\
  all_connections (safekeeper_state warmed_pool) = [11; 12]%positive.
Proof. done. Qed.

(** A pool warmed up with a single client of each kind. *)
Definition single_pool : ConnectionPool :=
  warm_connections (fun _ => Some 7%positive) (fun _ => Some 17%positive)
                   (ConnectionPool_new 1 2 1 2).

Lemma release_then_acquire_witness :
  let '(first, pool) := get_connection pageserver None 1000 single_pool in
  let '(client, _) :=
    get_connection pageserver None 1000
      (return_connection pageserver (Some 7%positive) pool) in
  first = Some 7%positive /\ client = Some 7%positive.
Proof.
  pose proof (release_then_acquire pageserver single_pool None 1000 7%positive
                _ None eq_refl) as H.
  simpl in H. specialize (H ltac:(set_solver)). simpl. tauto.
Defined.

(** C7, counterexample to the claim as stated.  In the warmed pool client
    1 is acquired and at once returned; the next acquire hands out client
    2, and client 1 waits behind it in the queue. *)
Lemma released_connection_is_not_next :
  let '(first, pool1) := get_pageserver_connection None 1000 warmed_pool in
  let pool2 := return_pageserver_connection first pool1 in
  let '(next, pool3) := get_pageserver_connection None 1000 pool2 in
  first = Some 1%positive /\ next = Some 2%positive /\
  available_connections (pageserver_state pool2) = [2; 1]%positive.
Proof. vm_compute. done. Qed.

Ltac not_in_list :=
  let H := fresh in
  cbn; intros H;
  repeat (apply elem_of_cons in H as [H|H]; [discriminate|]);
  by apply elem_of_nil in H.

(** ** Returning connections *)

Lemma set_kind_state_id kind pool :
  set_kind_state kind (kind_state kind pool) pool = pool.
Proof. by destruct kind, pool. Qed.

Lemma list_find_absent (c : Conn) (l : list Conn) :
  c ∉ l -> list_find (fun ptr => ptr = c) l = None.
Proof.
  intros Hnin. apply list_find_None. rewrite Forall_forall.
  intros x Hx ->. done.
Qed.

Lemma delete_removes_unique (c : Conn) (l : list Conn) i :
  NoDup l -> l !! i = Some c -> c ∉ delete i l.
Proof.
  intros Hnd Hi. rewrite delete_take_drop.
  rewrite <- (take_drop_middle l i c Hi) in Hnd.
  apply NoDup_app in Hnd as (_ & Hdisj & Hnd2).
  apply NoDup_cons in Hnd2 as [Hnin _].
  rewrite elem_of_app. intros [Hin|Hin]; [|done].
  apply (Hdisj c Hin). by left.
Qed.

Lemma return_absent kind (c : Conn) pool :
  c ∉ all_connections (kind_state kind pool) ->
  return_connection kind (Some c) pool = pool.
Proof.
  intros Hnin. unfold return_connection, return_connection_of.
  rewrite (list_find_absent c) by done. apply set_kind_state_id.
Qed.

(** X6.  Returning a null pointer or a connection that is not in the
    managed vector of its kind changes nothing in the pool: nothing is
    queued. *)
Theorem return_unknown_connection kind client pool :
  (forall c, client = Some c -> c ∉ all_connections (kind_state kind pool)) ->
  return_connection kind client pool = pool.
Proof.
  intros Hunknown. destruct client as [c|].
  - apply return_absent. by apply Hunknown.
  - unfold return_connection, return_connection_of. apply set_kind_state_id.
Qed.

Lemma return_unknown_connection_witness :
  return_connection pageserver (Some 9%positive) warmed_pool = warmed_pool.
Proof.
  apply return_unknown_connection. intros c Hc. injection Hc as <-.
  not_in_list.
Defined.

(** X7.  When the managed vector holds no connection twice, returning a
    connection removes it from that vector, so returning it a second time
    changes nothing: one lease puts a connection in the queue at most once. *)
Theorem return_twice_is_return_once kind c pool :
  NoDup (all_connections (kind_state kind pool)) ->
  let pool1 := return_connection kind (Some c) pool in
  (c ∉ all_connections (kind_state kind pool1)) /\
  return_connection kind (Some c) pool1 = pool1.
Proof.
  intros Hnd pool1.
  assert (c ∉ all_connections (kind_state kind pool1)) as Hgone.
  { subst pool1. unfold return_connection, return_connection_of.
    destruct (list_find _ _) as [[it ptr]|] eqn:Hfind.
    - rewrite kind_state_set. simpl.
      apply list_find_Some in Hfind as (Hit & -> & _).
      by apply delete_removes_unique.
    - rewrite set_kind_state_id. apply list_find_None in Hfind.
      rewrite Forall_forall in Hfind. intros Hin. by apply (Hfind c Hin). }
  split; [done|]. by apply return_absent.
Qed.

Lemma return_twice_is_return_once_witness :
  let pool1 := return_connection pageserver (Some 1%positive) warmed_pool in
  return_connection pageserver (Some 1%positive) pool1 = pool1.
Proof.
  apply (return_twice_is_return_once pageserver 1%positive warmed_pool).
  simpl. apply NoDup_cons. split; [not_in_list|]. apply NoDup_singleton.
Defined.

(** X8.  A connection at the front of the queue that is not in the
    managed vector is handed out by the next acquire, and returning it is
    then ignored: the pool stays as the acquire left it, with the queue cut
    by its front and the managed vector as before.  The lease is lost to the
    pool, which can hand the connection out again only if the queue held it
    a second time. *)
Theorem second_lease_is_never_returned kind c rest created timeout pool :
  available_connections (kind_state kind pool) = c :: rest ->
  c ∉ all_connections (kind_state kind pool) ->
  let '(client, pool1) := get_connection kind created timeout pool in
  let pool2 := return_connection kind client pool1 in
  client = Some c /\
  pool2 = pool1 /\
  available_connections (kind_state kind pool2) = rest /\
  all_connections (kind_state kind pool2)
  = all_connections (kind_state kind pool) /\
  (c ∈ available_connections (kind_state kind pool2) <-> c ∈ rest).
Proof.
  intros Hav Hall.
  unfold get_connection, get_connection_of. simpl. rewrite Hav.
  unfold return_connection, return_connection_of.
  rewrite !kind_state_set. simpl. rewrite (list_find_absent c) by done.
  split; [done|]. split; [by destruct kind|]. done.
Qed.

Lemma second_lease_is_never_returned_witness :
  let pool := return_connection pageserver (Some 7%positive)
                (snd (get_connection pageserver None 1000 single_pool)) in
  let '(client, pool1) := get_connection pageserver None 1000 pool in
  let pool2 := return_connection pageserver client pool1 in
  client = Some 7%positive /\
  pool2 = pool1 /\
  available_connections (kind_state pageserver pool2) = [] /\
  all_connections (kind_state pageserver pool2) = [].
Proof.
  pose proof (second_lease_is_never_returned pageserver 7%positive [] None 1000
                (return_connection pageserver (Some 7%positive)
                   (snd (get_connection pageserver None 1000 single_pool)))
                eq_refl ltac:(not_in_list)) as H.
  cbv zeta. destruct (get_connection pageserver None 1000 _) as [client pool1].
  destruct H as (? & ? & ? & ? & _). done.
Defined.

Lemma get_connection_state kind created timeout pool :
  kind_state kind (snd (get_connection kind created timeout pool))
  = snd (get_connection_of created timeout (kind_state kind pool)).
Proof.
  unfold get_connection.
  destruct (get_connection_of _ _ _) as [client k]. simpl.
  apply kind_state_set.
Qed.

(** X9.  Acquire and return keep the managed vector within the maximum of
    its kind: an acquire adds a connection only below the maximum, and a
    return only removes. *)
Theorem managed_vector_stays_bounded kind created timeout client pool :
  total (kind_state kind pool) <= max_connections (kind_state kind pool) ->
  let k1 := kind_state kind (snd (get_connection kind created timeout pool)) in
  let k2 := kind_state kind (return_connection kind client pool) in
  total k1 <= max_connections k1 /\ total k2 <= max_connections k2.
Proof.
  intros Hb. simpl. split.
  - rewrite get_connection_state.
    unfold get_connection_of, total in *. simpl.
    destruct (available_connections (kind_state kind pool)); simpl; [|lia].
    destruct (Z.ltb_spec (Z.of_nat (List.length (all_connections (kind_state kind pool))))
                         (max_connections (kind_state kind pool)));
      [destruct created|]; simpl; rewrite ?length_app; simpl; lia.
  - unfold return_connection, return_connection_of, total in *.
    rewrite kind_state_set. destruct client as [c|]; [|done].
    destruct (list_find _ _) as [[it ptr]|] eqn:Hfind; [|done]. simpl.
    apply list_find_Some in Hfind as (Hit & _).
    rewrite length_delete by eauto. lia.
Qed.

Lemma managed_vector_stays_bounded_witness :
  total (kind_state pageserver
           (snd (get_connection pageserver (Some 5%positive) 1000 warmed_pool))) <= 2.
Proof.
  apply (managed_vector_stays_bounded pageserver (Some 5%positive) 1000 None warmed_pool).
  vm_compute. discriminate.
Defined.

(** ** Warm-up and initialization *)

Lemma omap_length_le {A B} (f : A -> option B) (l : list A) :
  (List.length (omap f l) <= List.length l)%nat.
Proof.
  induction l as [|x l IH]; simpl; [lia|].
  destruct (f x); simpl; change (list_omap A B f l) with (omap f l); lia.
Qed.

(** X10.  Initializing a newly built pool is best effort: what it returns
    only tells whether the health-check thread started.  For each kind the
    connections whose creation succeeded, in the order of creation, are both
    the managed vector and the queue of available connections; creations
    that failed are passed over, so there are at most as many connections as
    the minimum of the kind, and possibly none. *)
Theorem initialize_is_best_effort create_pageserver create_safekeeper
    thread_started min_pageserver max_pageserver min_safekeeper max_safekeeper :
  let '(ok, pool) :=
    initialize create_pageserver create_safekeeper thread_started
      (ConnectionPool_new min_pageserver max_pageserver
                          min_safekeeper max_safekeeper) in
  let made_pageserver := omap create_pageserver (seq 0 (Z.to_nat min_pageserver)) in
  let made_safekeeper := omap create_safekeeper (seq 0 (Z.to_nat min_safekeeper)) in
  ok = thread_started /\
  available_connections (pageserver_state pool) = made_pageserver /\
  all_connections (pageserver_state pool) = made_pageserver /\
  available_connections (safekeeper_state pool) = made_safekeeper /\
  all_connections (safekeeper_state pool) = made_safekeeper /\
  (List.length made_pageserver <= Z.to_nat min_pageserver)%nat /\
  (List.length made_safekeeper <= Z.to_nat min_safekeeper)%nat.
Proof.
  simpl. repeat (split; [done|]).
  split; (etrans; [apply omap_length_le|by rewrite length_seq]).
Qed.

Lemma acquire_many_hits kind n : forall created pool,
  (n <= List.length (available_connections (kind_state kind pool)))%nat ->
  let '(clients, pool') := acquire_many kind created n pool in
  clients = Some <$> take n (available_connections (kind_state kind pool)) /\
  available_connections (kind_state kind pool')
  = drop n (available_connections (kind_state kind pool)) /\
  all_connections (kind_state kind pool') = all_connections (kind_state kind pool).
Proof.
  induction n as [|n IH]; intros created pool Hn; [done|].
  simpl. unfold get_connection at 1, get_connection_of. simpl.
  destruct (available_connections (kind_state kind pool)) as [|c rest] eqn:Hav;
    [simpl in Hn; lia|].
  simpl.
  specialize (IH (fun i => created (S i))
                (set_kind_state kind
                   (count_hit (set_lists rest (all_connections (kind_state kind pool))
                                 (count_request (kind_state kind pool)))) pool)).
  rewrite kind_state_set in IH. simpl in IH.
  destruct (acquire_many kind _ n _) as [clients pool'].
  destruct IH as (-> & -> & ->); [simpl in Hn; lia|]. done.
Qed.

(** X11.  The initialization of the plugin warms the pool twice.  After it
    every connection of the first warm-up stands twice in the queue of
    available connections of its kind, so acquires that nobody has answered
    with a release hand every such pageserver connection to two callers. *)
Theorem plugin_init_queues_connections_twice
    create1_pageserver create1_safekeeper create2_pageserver create2_safekeeper
    created :
  let first := omap create1_pageserver (seq 0 5) in
  let first_sk := omap create1_safekeeper (seq 0 3) in
  let '(status, pool) :=
    serverless_init_pool create1_pageserver create1_safekeeper
                         create2_pageserver create2_safekeeper true in
  status = 0 /\
  available_connections (pageserver_state pool)
  = first ++ first ++ omap create2_pageserver (seq 0 5) /\
  available_connections (safekeeper_state pool)
  = first_sk ++ first_sk ++ omap create2_safekeeper (seq 0 3) /\
  fst (acquire_many pageserver created (2 * List.length first) pool)
  = Some <$> (first ++ first).
Proof.
  unfold serverless_init_pool, initialize. simpl.
  split; [done|]. split; [done|]. split; [done|].
  set (first := omap create1_pageserver (seq 0 5)).
  set (pool := warm_connections _ _ _).
  pose proof (acquire_many_hits pageserver (2 * List.length first) created pool) as H.
  assert (available_connections (kind_state pageserver pool)
          = first ++ first ++ omap create2_pageserver (seq 0 5)) as Hav by done.
  rewrite Hav in H.
  destruct (acquire_many pageserver created _ pool) as [clients pool'].
  destruct H as (-> & _).
  { rewrite !length_app. lia. }
  simpl. f_equal. rewrite app_assoc.
  rewrite take_app_length'; [done|]. rewrite length_app. lia.
Qed.

(** ** The scoped wrappers *)

(** X12.  A wrapper gives its client back at most once.  After
    [return_early] the destructor does nothing; after a move the destructor
    of the wrapper moved from does nothing and the new wrapper returns what
    the old one would have; and a wrapper around a null client never calls
    the pool. *)
Theorem wrapper_returns_at_most_once kind w pool :
  (let '(w', pool') := return_early kind w pool in
   pool' = pooled_destroy kind w pool /\
   pooled_destroy kind w' pool' = pool') /\
  (let '(new, moved_from) := pooled_move w in
   pooled_destroy kind moved_from pool = pool /\
   pooled_destroy kind new pool = pooled_destroy kind w pool) /\
  (pooled_client w = None -> pooled_destroy kind w pool = pool).
Proof.
  unfold return_early, pooled_destroy, pooled_move.
  destruct w as [[c|] [|] [|]]; simpl; done.
Qed.

Lemma wrapper_returns_at_most_once_witness :
  pooled_destroy pageserver (PooledConnection_new None true) warmed_pool
  = warmed_pool.
Proof.
  apply (wrapper_returns_at_most_once pageserver
           (PooledConnection_new None true) warmed_pool).
  reflexivity.
Defined.

End PoolFacts.

Module SafekeeperFacts.
Import Safekeeper.

Ltac sk_unfold :=
  unfold append_wal_record, reconnect_if_needed, establish_connection,
    send_message, receive_message, close_connection, append_wal_record_async,
    process_append_request, this, update, syscall, bind, ret, gets, modify.

(** A client that holds an open connection on descriptor 3. *)
Definition connected_client : SafekeeperClient :=
  mkSafekeeperClient "127.0.0.1" 5433 3 true [] false.

(** A peer that accepts connections and takes every message whole, but
    whose acknowledgments never arrive. *)
Definition net_no_ack : Oracle :=
  fun _ c =>
    match c return sys_ans c with
    | sys_socket => 3
    | sys_inet_pton _ => 1
    | sys_connect _ _ => 0
    | sys_close _ => tt
    | sys_send _ _ len => len
    | sys_recv _ _ => None
    end.

(** A peer on which every [send] fails. *)
Definition net_send_fails : Oracle :=
  fun _ c =>
    match c return sys_ans c with
    | sys_socket => 3
    | sys_inet_pton _ => 1
    | sys_connect _ _ => 0
    | sys_close _ => tt
    | sys_send _ _ _ => -1
    | sys_recv _ _ => None
    end.

Lemma send_message_keeps_client net data len s :
  fst (snd (send_message net data len s)) = fst s.
Proof.
  destruct s as [c tr]. sk_unfold. simpl.
  destruct (negb (connected c) || (socket_fd c <? 0)); done.
Qed.

Lemma receive_message_keeps_client net size s :
  fst (snd (receive_message net size s)) = fst s.
Proof.
  destruct s as [c tr]. sk_unfold. simpl.
  destruct (negb (connected c) || (socket_fd c <? 0)); [done|]. simpl.
  destruct (net tr _) as [got|]; [|done].
  destruct (0 <? _); done.
Qed.

Example failed_send_stays_connected :
  send_message net_send_fails "x" 1 (connected_client, [])
  = (-1, (connected_client, [sys_send 3 "x" 1])).
Proof. reflexivity. Qed.

Lemma connect_attempts_app tr1 tr2 :
  connect_attempts (tr1 ++ tr2) = (connect_attempts tr1 + connect_attempts tr2)%nat.
Proof. unfold connect_attempts. by rewrite omap_app, length_app. Qed.

Lemma sent_app tr1 tr2 : sent (tr1 ++ tr2) = sent tr1 ++ sent tr2.
Proof. apply omap_app. Qed.

Lemma reconnect_when_disconnected net c tr :
  connected c = false ->
  let '(r, (c', tr')) := reconnect_if_needed net (c, tr) in
  connect_attempts tr' = S (connect_attempts tr) /\
  sent tr' = sent tr /\
  ((r = 0 /\ connected c' = true) \/ (r = -1 /\ connected c' = false)).
Proof.
  intros Hc. sk_unfold. simpl. rewrite Hc. simpl. rewrite Hc.
  repeat (case_match; simplify_eq/=);
    unfold connect_attempts, sent; rewrite ?omap_app, ?length_app; simpl;
    rewrite ?app_nil_r; (split; [lia|]); (split; [done|]); auto.
Qed.

Lemma reconnect_when_connected net c tr :
  connected c = true -> reconnect_if_needed net (c, tr) = (0, (c, tr)).
Proof. intros Hc. sk_unfold. simpl. by rewrite Hc. Qed.

Lemma append_fails_with_reconnect net tl rec s :
  fst (reconnect_if_needed net s) <> 0 ->
  append_wal_record net tl rec s = (-1, snd (reconnect_if_needed net s)).
Proof.
  intros Hr. unfold append_wal_record, bind at 1.
  destruct (reconnect_if_needed net s) as [r s']. cbn [fst snd] in *.
  destruct (decide (r <> 0)); [done|]. lia.
Qed.

(** C5, as the code has it.  The connection state is the flag [connected]
    (with its descriptor).  A send or a receive, failed or not, leaves the
    client object as it was, so a failure does not disconnect it.  An
    operation reconnects only when the client is disconnected: it then makes
    exactly one attempt, and the append fails at once when that attempt
    fails. *)
Theorem failure_keeps_connection_state net c tr :
  (forall data len, fst (snd (send_message net data len (c, tr))) = c) /\
  (forall size, fst (snd (receive_message net size (c, tr))) = c) /\
  (let '(r, (c', tr')) := reconnect_if_needed net (c, tr) in
   if connected c then (r, c', tr') = (0, c, tr)
   else connect_attempts tr' = S (connect_attempts tr) /\
        ((r = 0 /\ connected c' = true) \/ (r = -1 /\ connected c' = false))) /\
  (forall tl rec,
     fst (reconnect_if_needed net (c, tr)) = 0 \/
     append_wal_record net tl rec (c, tr)
     = (-1, snd (reconnect_if_needed net (c, tr)))).
Proof.
  split; [|split; [|split]].
  - intros. apply send_message_keeps_client.
  - intros. apply receive_message_keeps_client.
  - destruct (connected c) eqn:Hc.
    + by rewrite reconnect_when_connected.
    + pose proof (reconnect_when_disconnected net c tr Hc) as H.
      destruct (reconnect_if_needed net (c, tr)) as [r [c' tr']]. tauto.
  - intros tl rec.
    destruct (decide (fst (reconnect_if_needed net (c, tr)) = 0)); [by left|].
    right. by apply append_fails_with_reconnect.
Qed.

(** C5, counterexample to the claim as stated.  On a connected client a
    [send] fails; the client is still marked connected afterwards, and the
    next operation's [reconnect_if_needed] succeeds without a single call
    to the network. *)
Lemma failed_send_does_not_disconnect :
  let '(r, s1) := send_message net_send_fails "x" 1 (connected_client, []) in
  r = -1 /\ connected (fst s1) = true /\
  reconnect_if_needed net_send_fails s1 = (0, s1).
Proof. vm_compute. done. Qed.

Lemma reconnect_sent net c tr :
  sent (snd (snd (reconnect_if_needed net (c, tr)))) = sent tr.
Proof.
  destruct (connected c) eqn:Hc.
  - by rewrite reconnect_when_connected.
  - pose proof (reconnect_when_disconnected net c tr Hc) as H.
    destruct (reconnect_if_needed net (c, tr)) as [r [c' tr']]. simpl. tauto.
Qed.

(** A peer that takes every message whole and answers each one with the
    acknowledgment [ack]. *)
Definition net_ack (ack : string) : Oracle :=
  fun _ c =>
    match c return sys_ans c with
    | sys_socket => 3
    | sys_inet_pton _ => 1
    | sys_connect _ _ => 0
    | sys_close _ => tt
    | sys_send _ _ len => len
    | sys_recv _ _ => Some ack
    end.

Definition ack_committed (lsn : Z) : string :=
  "{" +:+ quoted "committed_lsn" +:+ ":" +:+ pretty lsn +:+ "}".

Definition sample_record : WalRecord.t :=
  WalRecord.mk 5 3 [x61; x62; x63].

(** A client that has not connected yet reconnects first, then sends the
    request and waits for the acknowledgment. *)
Example append_on_a_fresh_client :
  append_wal_record (net_ack "ok") (TimelineId.mk 7) sample_record
    (SafekeeperClient_new "127.0.0.1" 5433, [])
  = (0, (mkSafekeeperClient "127.0.0.1" 5433 3 true [] false,
         [sys_socket; sys_inet_pton "127.0.0.1"; sys_connect 3 5433;
          sys_send 3 (wire_message (WalAppendRequest_new (TimelineId.mk 7) sample_record))
                   (Z.of_nat (String.length
                      (wire_message (WalAppendRequest_new (TimelineId.mk 7) sample_record))));
          sys_recv 3 1023])).
Proof. vm_compute. reflexivity. Qed.

Example no_acknowledgment_is_an_error :
  fst (append_wal_record net_no_ack (TimelineId.mk 7) sample_record
         (connected_client, [])) = -1.
Proof. vm_compute. reflexivity. Qed.

(** What [receive_message] does with the 1024 bytes of the callers'
    response buffer, on a client that holds a connection. *)
Lemma receive_message_1024 net c tr :
  connected c = true -> 0 <= socket_fd c ->
  let recv := sys_recv (socket_fd c) 1023 in
  exists n buffer,
    receive_message net 1024 (c, tr) = ((n, buffer), (c, tr ++ [recv])) /\
    (n = -1 \/ 0 < n) /\
    (0 < n <-> exists ack, net tr recv = Some ack /\ ack <> "").
Proof.
  intros Hc Hfd recv. subst recv. sk_unfold.
  cbn -[wrap64 to_int String.substring Z.to_nat].
  rewrite Hc. assert ((socket_fd c <? 0) = false) as -> by lia.
  cbn -[wrap64 to_int String.substring Z.to_nat].
  change (wrap64 (1024 - 1)) with 1023.
  destruct (net tr (sys_recv (socket_fd c) 1023)) as [s|] eqn:Hs.
  2: { eexists _, _. split; [reflexivity|]. split; [by left|].
       split; [lia|]. by intros (ack & [=] & _). }
  set (got := String.substring 0 (Z.to_nat 1023) s).
  assert (Z.of_nat (String.length got) <= 1023) as Hgot
    by (subst got; rewrite substring_length; lia).
  assert (got = "" <-> s = "") as Hempty
    by (subst got; apply substring_nonempty; lia).
  destruct (Z.ltb_spec 0 (Z.of_nat (String.length got))) as [Hpos|Hzero];
    cbn -[to_int].
  - rewrite to_int_small by lia.
    eexists _, _. split; [reflexivity|]. split; [by right|].
    split; [|done]. intros _. exists s. split; [done|].
    intros Hs0. apply Hempty in Hs0. rewrite Hs0 in Hpos. simpl in Hpos. lia.
  - eexists _, _. split; [reflexivity|]. split; [by left|].
    split; [lia|]. intros (ack & [= <-] & Hne). exfalso. apply Hne, Hempty.
    destruct got; [done|simpl in Hzero; lia].
Qed.

(** C4, as the code has it.  A synchronous append returns a status and
    nothing else.  After the reconnect that a disconnected client attempts,
    the append is ready when a connection is there and the request fits the
    4096-byte buffer.  It then sends the request once; when [send] took the
    whole request it blocks in one [recv].  The status is 0 exactly when the
    append was ready, the request was sent whole and a non-empty
    acknowledgment arrived, whatever that acknowledgment says; in every
    other case -- no connection, a request that does not fit, a short or
    failed [send], no acknowledgment -- it is -1. *)
Theorem append_wal_record_status net tl rec c tr :
  let '(len, msg) := serialize_append_request tl rec 4096 in
  let '(r0, (c1, tr1)) := reconnect_if_needed net (c, tr) in
  let send := sys_send (socket_fd c1) msg len in
  let recv := sys_recv (socket_fd c1) 1023 in
  let ready := bool_decide (r0 = 0) && (0 <=? socket_fd c1) && (0 <=? len) in
  let sent_whole := bool_decide (net tr1 send = len) in
  let acknowledged :=
    match net (tr1 ++ [send]) recv with
    | Some ack => bool_decide (ack <> "")
    | None => false
    end in
  append_wal_record net tl rec (c, tr)
  = (if ready && sent_whole && acknowledged then 0 else -1,
     (c1, tr1 ++ (if ready
                  then send :: (if sent_whole then [recv] else [])
                  else []))).
Proof.
  destruct (serialize_append_request tl rec 4096) as [len msg] eqn:Hser.
  unfold append_wal_record, bind at 1.
  assert (fst (reconnect_if_needed net (c, tr)) = 0 ->
          connected (fst (snd (reconnect_if_needed net (c, tr)))) = true)
    as Hconn.
  { destruct (connected c) eqn:Hc.
    - by rewrite reconnect_when_connected.
    - pose proof (reconnect_when_disconnected net c tr Hc) as H.
      destruct (reconnect_if_needed net (c, tr)) as [r [c' tr']]. simpl.
      intros ->. destruct H as (_ & _ & [[_ ?]|[? _]]); [done|lia]. }
  destruct (reconnect_if_needed net (c, tr)) as [r0 [c1 tr1]].
  cbn [fst snd] in Hconn. lazy beta iota.
  set (send := sys_send (socket_fd c1) msg len).
  set (recv := sys_recv (socket_fd c1) 1023).
  destruct (decide (r0 <> 0)) as [Hr0|Hr0].
  { rewrite bool_decide_eq_false_2 by done. cbn. by rewrite app_nil_r. }
  assert (r0 = 0) as -> by lia. specialize (Hconn eq_refl).
  rewrite bool_decide_eq_true_2 by done. rewrite Hser.
  destruct (Z.ltb_spec len 0) as [Hlen|Hlen].
  { assert ((0 <=? len) = false) as -> by lia.
    rewrite andb_false_r. cbn. by rewrite app_nil_r. }
  assert ((0 <=? len) = true) as -> by lia.
  destruct (Z.leb_spec 0 (socket_fd c1)) as [Hfd|Hfd].
  2: { unfold bind at 1, send_message, bind at 1, this, gets. cbn.
       rewrite Hconn. assert ((socket_fd c1 <? 0) = true) as -> by lia.
       cbn. by rewrite app_nil_r. }
  unfold bind at 1, send_message, bind at 1, this, gets. cbn [fst snd].
  rewrite Hconn. assert ((socket_fd c1 <? 0) = false) as -> by lia.
  unfold bind at 1, syscall, ret. cbn [fst snd negb orb andb].
  fold send. destruct (decide (net tr1 send = len)) as [Hsend|Hsend].
  2: { rewrite bool_decide_eq_false_2 by done.
       destruct (decide (-1 <> 0)); [done|lia]. }
  rewrite bool_decide_eq_true_2 by done.
  destruct (decide (0 <> 0)); [done|].
  unfold bind at 1.
  destruct (receive_message_1024 net c1 (tr1 ++ [send]) Hconn Hfd)
    as (got & buffer & -> & Hgot & Hack).
  fold recv in Hack. rewrite <- app_assoc. cbn [app].
  destruct (Z.ltb_spec got 0) as [Hneg|Hpos].
  - unfold ret. f_equal.
    destruct (net (tr1 ++ [send]) recv) as [ack|] eqn:Hnet; [|done].
    rewrite bool_decide_eq_false_2; [done|].
    intros Hne. assert (0 < got) by (apply Hack; eauto). lia.
  - unfold deserialize_append_response, ret. f_equal.
    assert (0 < got) as Hgot' by lia. apply Hack in Hgot' as (ack & -> & Hne).
    by rewrite bool_decide_eq_true_2.
Qed.

(** C4, counterexample to the claim as stated.  The service acknowledges
    the same append once with committed LSN 42 and once with 43; the caller
    gets 0 both times, and the position decoded from the acknowledgment is
    the constant 1. *)
Lemma committed_lsn_not_returned :
  fst (append_wal_record (net_ack (ack_committed 42)) (TimelineId.mk 7)
         sample_record (connected_client, [])) = 0 /\
  fst (append_wal_record (net_ack (ack_committed 43)) (TimelineId.mk 7)
         sample_record (connected_client, [])) = 0 /\
  snd (deserialize_append_response (ack_committed 42)
         (strlen (ack_committed 42))) = 1.
Proof. vm_compute. done. Qed.

(** ** The asynchronous append queue *)

Lemma append_wal_record_keeps_queue net tl rec s :
  append_queue (fst (snd (append_wal_record net tl rec s))) = append_queue (fst s) /\
  shutdown_requested (fst (snd (append_wal_record net tl rec s)))
  = shutdown_requested (fst s).
Proof.
  destruct s as [c tr]. unfold append_wal_record.
  destruct (serialize_append_request tl rec 4096) as [len msg].
  sk_unfold. simpl. repeat (case_match; simplify_eq/=); done.
Qed.

Lemma payload_fresh l : map payload (fresh_requests l) = l.
Proof.
  unfold fresh_requests. induction l as [|[tl r] l IH]; [done|].
  simpl. by rewrite IH.
Qed.

Lemma fresh_requests_app l1 l2 :
  fresh_requests (l1 ++ l2) = fresh_requests l1 ++ fresh_requests l2.
Proof. apply map_app. Qed.

(** The state of the queue after a schedule: the worker has handled a
    prefix of everything that was queued or submitted, each submitter got
    0, and what is left in the queue is the rest, as it was submitted. *)
Lemma run_schedule_queue net sched :
  forall c tr sts hs c' tr',
    run_schedule net sched (c, tr) = ((sts, hs), (c', tr')) ->
    let all := append_queue c ++ fresh_requests (submitted sched) in
    map payload hs = map payload (take (List.length hs) all) /\
    append_queue c' = drop (List.length hs) all /\
    Forall (fun q => completed q = true) hs /\
    sts = replicate (List.length (submitted sched)) 0.
Proof.
  induction sched as [|a sched IH]; intros c tr sts hs c' tr' Hrun.
  { simpl in Hrun. unfold ret in Hrun. simplify_eq/=.
    rewrite app_nil_r, drop_0. done. }
  destruct a as [tl r| |]; simpl in Hrun.
  - (* a caller submits *)
    unfold bind at 1, append_wal_record_async, update, modify, bind, ret in Hrun.
    simpl in Hrun.
    destruct (run_schedule net sched _) as [[sts1 hs1] [c1 tr1]] eqn:Hrest.
    simplify_eq/=.
    apply IH in Hrest. simpl in Hrest.
    rewrite <- app_assoc in Hrest.
    change (fresh_requests ((tl, r) :: submitted sched))
      with ([WalAppendRequest_new tl r] ++ fresh_requests (submitted sched)).
    destruct Hrest as (? & ? & ? & ->). done.
  - (* the worker takes a turn *)
    unfold bind at 1, worker_thread_turn, this, gets, bind at 1 in Hrun.
    simpl in Hrun.
    destruct (shutdown_requested c) eqn:Hsd.
    { unfold ret, bind in Hrun.
      destruct (run_schedule net sched _) as [[sts1 hs1] [c1 tr1]] eqn:Hrest.
      simplify_eq/=. by apply IH in Hrest. }
    destruct (append_queue c) as [|request rest] eqn:Hq.
    { unfold ret, bind in Hrun.
      destruct (run_schedule net sched _) as [[sts1 hs1] [c1 tr1]] eqn:Hrest.
      simplify_eq/=. apply IH in Hrest. by rewrite Hq in Hrest. }
    unfold bind at 1, update, modify in Hrun. simpl in Hrun.
    unfold bind at 1, process_append_request in Hrun.
    pose proof (append_wal_record_keeps_queue net (timeline request)
                  (record request) (set_append_queue rest c, tr)) as [Hkq _].
    destruct (append_wal_record net _ _ _) as [r [c2 tr2]].
    unfold ret, bind in Hrun. simpl in Hkq.
    destruct (run_schedule net sched _) as [[sts1 hs1] [c1 tr1]] eqn:Hrest.
    simplify_eq/=. apply IH in Hrest. simpl in Hrest.
    destruct Hrest as (Hp & ? & ? & ?).
    split; [by rewrite Hp|]. split; [done|]. split; [|done].
    by constructor.
  - (* the destructor asks the worker to stop *)
    unfold bind, update, modify in Hrun. simpl in Hrun.
    destruct (run_schedule net sched _) as [[sts1 hs1] [c1 tr1]] eqn:Hrest.
    simplify_eq/=. by apply IH in Hrest.
Qed.

(** The scenario of three records submitted in the order L1, L2, L3, with
    the worker running in between: the three appends go out in that
    order. *)
Example three_records_in_order :
  let r1 := WalRecord.mk 1 2 [x4c; x31] in
  let r2 := WalRecord.mk 2 2 [x4c; x32] in
  let r3 := WalRecord.mk 3 2 [x4c; x33] in
  let tl := TimelineId.mk 7 in
  let sched := [act_submit tl r1; act_submit tl r2; act_worker;
                act_submit tl r3; act_worker; act_worker; act_worker] in
  let '((sts, hs), (c, tr)) :=
    run_schedule (net_ack "ok") sched (connected_client, []) in
  sts = [0; 0; 0] /\ map payload hs = [(tl, r1); (tl, r2); (tl, r3)] /\
  sent tr = map wire_message hs /\ append_queue c = [].
Proof. vm_compute. done. Qed.

(** C10.  [append_wal_record_async] returns 0 in every state and for every
    record, so every submitter of a schedule is told 0, whatever the network
    does.  The worker stores the outcome in the request object
    ([completed]) and then frees it: after any schedule the client holds
    only the requests not yet handled, exactly as they were submitted, and
    no outcome. *)
Theorem async_append_outcome_discarded net sched c tr :
  (forall tl rec s, fst (append_wal_record_async tl rec s) = 0) /\
  let '((sts, hs), (c', tr')) := run_schedule net sched (c, tr) in
  sts = replicate (List.length (submitted sched)) 0 /\
  Forall (fun q => completed q = true) hs /\
  append_queue c'
  = drop (List.length hs) (append_queue c ++ fresh_requests (submitted sched)).
Proof.
  split; [done|].
  destruct (run_schedule net sched (c, tr)) as [[sts hs] [c' tr']] eqn:Hrun.
  apply run_schedule_queue in Hrun. simpl in Hrun. tauto.
Qed.

(** ** Connection management *)

Lemma closed_app tr1 tr2 : closed (tr1 ++ tr2) = closed tr1 ++ closed tr2.
Proof. apply omap_app. Qed.

(** X13.  An attempt to connect either succeeds, and the client is then
    connected on the descriptor [socket] gave it without having closed
    anything, or fails with -1, and the client is then disconnected, holds no
    descriptor, and has closed the descriptor it got from [socket], if it
    got one: a failed attempt leaks no descriptor. *)
Theorem establish_connection_outcome net c tr :
  connected c = false ->
  let fd := net tr sys_socket in
  let '(r, (c', tr')) := establish_connection net (c, tr) in
  (r = 0 /\ connected c' = true /\ socket_fd c' = fd /\ 0 <= fd /\
   closed tr' = closed tr) \/
  (r = -1 /\ connected c' = false /\ socket_fd c' < 0 /\
   closed tr' = closed tr ++ (if 0 <=? fd then [fd] else [])).
Proof.
  intros Hc. sk_unfold. simpl. rewrite Hc. simpl. rewrite ?Hc.
  repeat (case_match; simplify_eq/=); rewrite ?closed_app; simpl;
    rewrite ?app_nil_r.
  all: try solve [left; repeat split; (done || lia)].
  all: right; repeat split; try done; try lia;
    destruct (Z.leb_spec 0 (net tr sys_socket)); (done || lia).
Qed.

Lemma establish_connection_outcome_witness :
  fst (establish_connection (net_ack "ok")
         (SafekeeperClient_new "127.0.0.1" 5433, [])) = 0.
Proof.
  pose proof (establish_connection_outcome (net_ack "ok")
                (SafekeeperClient_new "127.0.0.1" 5433) [] eq_refl) as H.
  simpl in H. destruct H as [H|H]; [apply H|].
  destruct H as (_ & H & _). discriminate H.
Defined.

(** X14.  Disconnecting marks the client disconnected, leaves it without
    a descriptor, and closes the descriptor it held exactly once; a second
    disconnect changes nothing and closes nothing. *)
Theorem disconnect_is_idempotent net c tr :
  let '(_, (c1, tr1)) := disconnect net (c, tr) in
  connected c1 = false /\ socket_fd c1 < 0 /\
  closed tr1 = closed tr ++ (if 0 <=? socket_fd c then [socket_fd c] else []) /\
  disconnect net (c1, tr1) = (tt, (c1, tr1)).
Proof.
  unfold disconnect. sk_unfold. simpl.
  destruct (Z.leb_spec 0 (socket_fd c)) as [Hfd|Hfd]; simpl.
  - rewrite closed_app. simpl. repeat split; (done || lia).
  - rewrite app_nil_r. assert ((0 <=? socket_fd c) = false) as -> by lia.
    simpl. destruct c. simpl in *. repeat split; (done || lia).
Qed.

(** ** Buffers *)

(** X15.  With a buffer of 1 to 2^31 bytes, [receive_message] either fails
    with -1 and an empty buffer, or returns the number of characters it put
    in the buffer, which is positive and at most [buffer_size - 1], the
    characters being the start of what the peer sent. *)
Theorem receive_message_bounds net size c tr :
  1 <= size <= 2 ^ 31 ->
  let '((n, buffer), _) := receive_message net size (c, tr) in
  (n = -1 /\ buffer = "") \/
  (0 < n <= size - 1 /\ n = Z.of_nat (String.length buffer) /\
   exists s, net tr (sys_recv (socket_fd c) (size - 1)) = Some s /\
             buffer = String.substring 0 (Z.to_nat (size - 1)) s).
Proof.
  intros Hsize. sk_unfold. cbn -[wrap64 to_int String.substring Z.to_nat].
  assert (wrap64 (size - 1) = size - 1) as ->
    by (unfold wrap64; apply Z.mod_small; lia).
  destruct (negb (connected c) || (socket_fd c <? 0));
    cbn -[to_int String.substring Z.to_nat]; [by left|].
  destruct (net tr (sys_recv (socket_fd c) (size - 1))) as [s|] eqn:Hs;
    [|by left].
  set (got := String.substring 0 (Z.to_nat (size - 1)) s).
  assert (Z.of_nat (String.length got) <= size - 1) as Hgot
    by (subst got; rewrite substring_length; lia).
  destruct (Z.ltb_spec 0 (Z.of_nat (String.length got)));
    cbn -[to_int]; [|by left].
  right. rewrite to_int_small by lia.
  split; [lia|]. split; [done|]. by exists s.
Qed.

Lemma receive_message_bounds_witness :
  let '((n, buffer), _) :=
    receive_message (net_ack "ok") 1024 (connected_client, []) in
  (n = -1 /\ buffer = "") \/
  (0 < n <= 1024 - 1 /\ n = Z.of_nat (String.length buffer) /\
   exists s, net_ack "ok" [] (sys_recv (socket_fd connected_client) (1024 - 1))
             = Some s /\
             buffer = String.substring 0 (Z.to_nat (1024 - 1)) s).
Proof.
  apply (receive_message_bounds (net_ack "ok") 1024 connected_client []).
  lia.
Defined.

(** X16.  With a buffer of 1 to 2^31 - 1 bytes, [serialize_append_request]
    never writes more than [buffer_size - 1] characters, and it reports a
    length only when the whole request fitted: the value returned is -1, or
    it is below [buffer_size] and is the length of the buffer. *)
Theorem serialize_append_request_bounds tl rec size :
  1 <= size < 2 ^ 31 ->
  let '(r, buffer) := serialize_append_request tl rec size in
  (String.length buffer <= Z.to_nat (size - 1))%nat /\
  (r = -1 \/ (0 <= r < size /\ r = Z.of_nat (String.length buffer))).
Proof.
  intros Hsize. unfold serialize_append_request, snprintf.
  rewrite to_int_small by lia.
  match goal with |- context [String.substring 0 _ ?t] => set (text := t) end.
  split.
  - rewrite substring_length. lia.
  - destruct (Z.ltb_spec (Z.of_nat (String.length text)) size); [|by left].
    right. split; [lia|]. rewrite substring_whole; [done|lia].
Qed.

Lemma serialize_append_request_bounds_witness :
  let '(r, buffer) :=
    serialize_append_request (TimelineId.mk 7) sample_record 4096 in
  (String.length buffer <= Z.to_nat (4096 - 1))%nat /\
  (r = -1 \/ (0 <= r < 4096 /\ r = Z.of_nat (String.length buffer))).
Proof.
  apply (serialize_append_request_bounds (TimelineId.mk 7) sample_record 4096).
  lia.
Defined.

Lemma c_string_stops_at_nul a : forall prec b,
  c_string prec (a ++ x00 :: b) = c_string prec a.
Proof.
  induction a as [|x a IH]; intros prec b.
  - destruct prec as [[|n]|]; done.
  - destruct prec as [[|n]|]; simpl; [done| |];
      destruct (Byte.eqb x x00); by rewrite ?IH.
Qed.

(** X17.  The data of a record reaches the wire as a C string: whatever
    follows the first NUL byte of the data is left out of the request, so two
    records that differ only after a NUL serialize to the same request. *)
Theorem serialization_stops_at_nul tl lsn len a b b' size :
  serialize_append_request tl (WalRecord.mk lsn len (a ++ x00 :: b)) size
  = serialize_append_request tl (WalRecord.mk lsn len (a ++ x00 :: b')) size.
Proof.
  unfold serialize_append_request. simpl.
  by rewrite !c_string_stops_at_nul.
Qed.

Lemma c_string_no_nul n : forall prec s,
  (n <= List.length s)%nat ->
  Forall (fun b => b <> x00) (take n s) ->
  (forall p, prec = Some p -> (n <= p)%nat) ->
  (n <= List.length (c_string prec s))%nat.
Proof.
  induction n as [|n IH]; intros prec s Hlen Hnz Hprec; [lia|].
  destruct s as [|b s]; [simpl in Hlen; lia|].
  rewrite firstn_cons in Hnz. apply Forall_cons in Hnz as [Hb Hnz].
  assert (Byte.eqb b x00 = false) as Hneq.
  { destruct (Byte.eqb b x00) eqn:E; [|done].
    apply Byte.byte_dec_bl in E. done. }
  cbn [List.length] in Hlen.
  destruct prec as [[|p]|]; cbn [c_string].
  - specialize (Hprec 0%nat eq_refl). lia.
  - rewrite Hneq. cbn [List.length fmap option_fmap option_map pred].
    apply le_n_S, IH; [lia|done|].
    intros p' [= <-]. specialize (Hprec (S p) eq_refl). lia.
  - rewrite Hneq. cbn [List.length fmap option_fmap option_map].
    apply le_n_S, (IH None); [lia|done|done].
Qed.

Lemma serialize_too_long tl rec size :
  0 <= size < 2 ^ 31 ->
  size <= WalRecord.length rec ->
  (Z.to_nat size <= List.length (WalRecord.data rec))%nat ->
  Forall (fun b => b <> x00) (take (Z.to_nat size) (WalRecord.data rec)) ->
  fst (serialize_append_request tl rec size) = -1.
Proof.
  intros Hsize Hlen Hdata Hnz.
  unfold serialize_append_request, snprintf.
  rewrite to_int_small by lia.
  match goal with |- context [String.substring 0 _ ?t] => set (text := t) end.
  lazy beta iota zeta. cbn [fst].
  assert (Z.to_nat size <= String.length text)%nat as Htext.
  { subst text. unfold quoted.
    rewrite !string_length_app, string_of_list_byte_length.
    match goal with |- context [c_string ?p _] => set (prec := p) end.
    assert (Z.to_nat size <= List.length (c_string prec (WalRecord.data rec)))%nat.
    { apply c_string_no_nul; [done|done|].
      subst prec. intros p. destruct (WalRecord.length rec <? 2 ^ 31);
        [|done]. intros [= <-]. lia. }
    lia. }
  destruct (Z.ltb_spec (Z.of_nat (String.length text)) size); [lia|done].
Qed.

(** X18.  A record whose data starts with 4096 bytes other than NUL, and
    whose length field is at least 4096, does not fit the request buffer:
    its serialization fails, and on a connected client the append returns -1
    without a single call to the network.  A page of 16 KiB whose first 4096
    bytes are not NUL can therefore never be appended. *)
Theorem oversized_record_is_never_sent net tl rec c tr :
  4096 <= WalRecord.length rec ->
  4096 <= Z.of_nat (List.length (WalRecord.data rec)) ->
  Forall (fun b => b <> x00) (take (Z.to_nat 4096) (WalRecord.data rec)) ->
  connected c = true ->
  append_wal_record net tl rec (c, tr) = (-1, (c, tr)).
Proof.
  intros Hlen Hdata Hnz Hc.
  pose proof (serialize_too_long tl rec 4096) as Hser.
  unfold append_wal_record, bind at 1. rewrite reconnect_when_connected by done.
  destruct (serialize_append_request tl rec 4096) as [r buf].
  cbn [fst] in Hser. rewrite Hser; [done|lia|done|lia|done].
Qed.

Lemma oversized_record_is_never_sent_witness :
  append_wal_record net_no_ack (TimelineId.mk 7)
    (WalRecord.mk 1 MARIADB_PAGE_SIZE
       (replicate (Z.to_nat MARIADB_PAGE_SIZE) x2a))
    (connected_client, [])
  = (-1, (connected_client, [])).
Proof.
  apply oversized_record_is_never_sent.
  - vm_compute. discriminate.
  - cbn [WalRecord.data]. rewrite length_replicate. vm_compute. discriminate.
  - cbn [WalRecord.data]. apply Forall_take, Forall_replicate. discriminate.
  - reflexivity.
Defined.

(** ** The worker and the destructor *)

Lemma append_wal_record_result net tl rec s :
  fst (append_wal_record net tl rec s) = 0 \/
  fst (append_wal_record net tl rec s) = -1.
Proof.
  destruct s as [c tr]. unfold append_wal_record.
  destruct (serialize_append_request tl rec 4096) as [len msg].
  sk_unfold. simpl. repeat (case_match; simplify_eq/=); auto.
Qed.

(** X19.  While no shutdown is requested, [n] turns of the worker take the
    first [n] requests off the queue, in order, and leave the rest.  Every
    request taken is finished with status 0 or -1 and is gone from the queue
    either way: an append that failed is not tried again. *)
Theorem worker_drains_queue_without_retry net n : forall c tr,
  shutdown_requested c = false ->
  let '(hs, (c', tr')) := worker_turns net n (c, tr) in
  map payload hs = map payload (take n (append_queue c)) /\
  append_queue c' = drop n (append_queue c) /\
  Forall (fun q => completed q = true /\ (result q = 0 \/ result q = -1)) hs.
Proof.
  induction n as [|n IH]; intros c tr Hsd.
  { simpl. unfold ret. by rewrite drop_0. }
  simpl. unfold bind at 1, worker_thread_turn, this, gets, bind at 1.
  simpl. rewrite Hsd.
  destruct (append_queue c) as [|request rest] eqn:Hq.
  { unfold ret, bind. specialize (IH c tr Hsd).
    destruct (worker_turns net n (c, tr)) as [hs [c1 tr1]].
    rewrite Hq, take_nil, drop_nil in IH. done. }
  unfold bind at 1, update, modify. simpl.
  unfold bind at 1, process_append_request.
  pose proof (append_wal_record_keeps_queue net (timeline request)
                (record request) (set_append_queue rest c, tr)) as [Hkq Hks].
  pose proof (append_wal_record_result net (timeline request)
                (record request) (set_append_queue rest c, tr)) as Hres.
  destruct (append_wal_record net _ _ _) as [r [c2 tr2]].
  unfold ret, bind. simpl in Hkq, Hks, Hres.
  specialize (IH c2 tr2). rewrite Hks, Hkq in IH. specialize (IH Hsd).
  destruct (worker_turns net n (c2, tr2)) as [hs [c1 tr1]].
  destruct IH as (Hp & Hrest & Hall).
  simpl. split; [by rewrite Hp|]. split; [done|].
  constructor; [done|done].
Qed.

Lemma worker_drains_queue_without_retry_witness :
  let r1 := WalRecord.mk 1 2 [x4c; x31] in
  let r2 := WalRecord.mk 2 2 [x4c; x32] in
  let tl := TimelineId.mk 7 in
  let c := set_append_queue (fresh_requests [(tl, r1); (tl, r2)]) connected_client in
  let '(hs, (c', tr')) := worker_turns net_no_ack 1 (c, []) in
  map payload hs = map payload (take 1 (append_queue c)) /\
  append_queue c' = drop 1 (append_queue c) /\
  Forall (fun q => completed q = true /\ (result q = 0 \/ result q = -1)) hs.
Proof.
  intros r1 r2 tl c.
  apply (worker_drains_queue_without_retry net_no_ack 1 c []).
  reflexivity.
Defined.

(** X20.  Once shutdown is requested the worker handles nothing more:
    whatever the schedule, no call reaches the network and no request
    leaves the queue.  Records submitted from then on are still accepted
    with status 0 and only pile up in the queue. *)
Theorem nothing_is_handled_after_shutdown net sched : forall c tr,
  shutdown_requested c = true ->
  let '((sts, hs), (c', tr')) := run_schedule net sched (c, tr) in
  hs = [] /\ tr' = tr /\
  sts = replicate (List.length (submitted sched)) 0 /\
  append_queue c' = append_queue c ++ fresh_requests (submitted sched).
Proof.
  induction sched as [|a sched IH]; intros c tr Hsd.
  { simpl. unfold ret. by rewrite app_nil_r. }
  destruct a as [tl r| |]; simpl.
  - unfold bind at 1, append_wal_record_async, update, modify, bind, ret.
    simpl.
    specialize (IH (set_append_queue (append_queue c ++ [WalAppendRequest_new tl r]) c)
                  tr Hsd).
    destruct (run_schedule net sched _) as [[sts1 hs1] [c1 tr1]].
    destruct IH as (-> & -> & -> & ->). simpl.
    rewrite <- app_assoc. done.
  - unfold bind at 1, worker_thread_turn, this, gets, bind at 1.
    simpl. rewrite Hsd. unfold ret, bind.
    specialize (IH c tr Hsd).
    destruct (run_schedule net sched _) as [[sts1 hs1] [c1 tr1]]. done.
  - unfold bind, update, modify. simpl.
    specialize (IH (set_shutdown_requested true c) tr eq_refl).
    destruct (run_schedule net sched _) as [[sts1 hs1] [c1 tr1]]. done.
Qed.

Lemma nothing_is_handled_after_shutdown_witness :
  let r1 := WalRecord.mk 1 2 [x4c; x31] in
  let tl := TimelineId.mk 7 in
  let c := set_shutdown_requested true connected_client in
  let sched := [act_submit tl r1; act_worker; act_worker] in
  let '((sts, hs), (c', tr')) := run_schedule (net_ack "ok") sched (c, []) in
  hs = [] /\ tr' = [] /\
  sts = replicate (List.length (submitted sched)) 0 /\
  append_queue c' = append_queue c ++ fresh_requests (submitted sched).
Proof.
  intros r1 tl c sched.
  apply (nothing_is_handled_after_shutdown (net_ack "ok") sched c []).
  reflexivity.
Defined.

(** X21.  The destructor drops the requests still queued without sending
    any of them: afterwards the queue is empty, the client is disconnected
    with no descriptor, and the only call made is the [close] of the
    descriptor the client held, if it held one. *)
Theorem destructor_drops_queued_requests net c tr :
  let '(_, (c', tr')) := destroy net (c, tr) in
  append_queue c' = [] /\ shutdown_requested c' = true /\
  connected c' = false /\ socket_fd c' < 0 /\
  tr' = tr ++ (if 0 <=? socket_fd c then [sys_close (socket_fd c)] else []).
Proof.
  unfold destroy. sk_unfold. simpl.
  destruct (Z.leb_spec 0 (socket_fd c)); simpl;
    rewrite ?app_nil_r; repeat split; (done || lia).
Qed.

(** ** Creating a timeline *)

(** The request [create_timeline] writes into its buffer of 256 bytes. *)
Definition create_timeline_message (tl : TimelineId.t) : string :=
  fst (snprintf 256
         ("{" +:+ quoted "type" +:+ ":" +:+ quoted "create_timeline" +:+ ","
              +:+ quoted "timeline_id" +:+ ":"
              +:+ pretty (TimelineId.id tl) +:+ "}")).

Global Arguments create_timeline_message : simpl never.

(** X22.  [create_timeline] on the safekeeper returns 0 or -1.  It returns
    0 only when the request went out once and one [recv] then delivered a
    non-empty reply; the content of the reply is not looked at.  When it
    returns -1, at most that one request has been sent. *)
Theorem create_timeline_status net tl c tr :
  let msg := create_timeline_message tl in
  let '(r, (c', tr')) := create_timeline net tl (c, tr) in
  (r = -1 /\ (sent tr' = sent tr \/ sent tr' = sent tr ++ [msg])) \/
  (r = 0 /\ connected c' = true /\ sent tr' = sent tr ++ [msg] /\
   exists tr0 ack,
     tr' = tr0 ++ [sys_send (socket_fd c') msg (strlen msg);
                   sys_recv (socket_fd c') 1023] /\
     net (tr0 ++ [sys_send (socket_fd c') msg (strlen msg)])
         (sys_recv (socket_fd c') 1023) = Some ack /\
     ack <> "").
Proof.
  intros msg. unfold create_timeline, bind at 1.
  change (fst (snprintf 256 _)) with msg.
  pose proof (reconnect_sent net c tr) as Hsent.
  destruct (reconnect_if_needed net (c, tr)) as [r0 [c1 tr1]]. simpl in Hsent.
  destruct (decide (r0 <> 0)); [left; split; [done|by left]|].
  generalize dependent msg. intros msg.
  generalize (strlen msg). intros len.
  sk_unfold. simpl.
  repeat (case_match; simplify_eq/=);
    try solve [left; split; [done|]; rewrite ?sent_app, ?Hsent; simpl;
               rewrite ?app_nil_r; auto].
  right. split; [done|].
  split; [by destruct (connected c1)|].
  split.
  { rewrite !sent_app, Hsent. simpl. by rewrite app_nil_r. }
  match goal with
  | Hack : net _ (sys_recv _ _) = Some ?a |- _ =>
    exists tr1, a; split; [by rewrite <- app_assoc|]; split; [exact Hack|]
  end.
  intros ->. done.
Qed.

End SafekeeperFacts.

Module PipelineFacts.
Import Pipeline.
Import Safekeeper(sent, connected, socket_fd, shutdown_requested).

Lemma append_wal_record_messages net tl rec c tr :
  let '(len, msg) := Safekeeper.serialize_append_request tl rec 4096 in
  let '(r, (c', tr')) := Safekeeper.append_wal_record net tl rec (c, tr) in
  shutdown_requested c' = shutdown_requested c /\
  (exists msgs, sent tr' = sent tr ++ msgs /\
                msgs `sublist_of` (if len <? 0 then [] else [msg])) /\
  (connected c = true -> 0 <= socket_fd c ->
   c' = c /\ sent tr' = sent tr ++ (if len <? 0 then [] else [msg])).
Proof.
  destruct (Safekeeper.serialize_append_request tl rec 4096) as [len msg] eqn:Hser.
  pose proof (SafekeeperFacts.append_wal_record_keeps_queue net tl rec (c, tr))
    as [_ Hsd].
  assert (let '(r, (c', tr')) := Safekeeper.append_wal_record net tl rec (c, tr) in
          (exists msgs, sent tr' = sent tr ++ msgs /\
                        msgs `sublist_of` (if len <? 0 then [] else [msg])) /\
          (connected c = true -> 0 <= socket_fd c ->
           c' = c /\ sent tr' = sent tr ++ (if len <? 0 then [] else [msg])))
    as Hmain.
  { unfold Safekeeper.append_wal_record, bind at 1.
    pose proof (SafekeeperFacts.reconnect_sent net c tr) as Hsent.
    pose proof (SafekeeperFacts.reconnect_when_connected net c tr) as Hconn.
    destruct (Safekeeper.reconnect_if_needed net (c, tr)) as [r0 [c1 tr1]].
    simpl in Hsent. rewrite Hser.
    destruct (decide (r0 <> 0)) as [Hr0|Hr0].
    { unfold ret. cbn [fst snd]. split.
      - exists []. rewrite app_nil_r. split; [done|apply sublist_nil_l].
      - intros Hc _. specialize (Hconn Hc). simplify_eq. }
    destruct (Z.ltb_spec len 0) as [Hlen|Hlen].
    { unfold ret. lazy beta iota. split.
      - exists []. by rewrite app_nil_r.
      - intros Hc _. specialize (Hconn Hc). simplify_eq. by rewrite app_nil_r. }
    SafekeeperFacts.sk_unfold. simpl.
    repeat (case_match; simplify_eq/=);
      rewrite ?SafekeeperFacts.sent_app, ?Hsent; simpl; rewrite ?app_nil_r;
      (split;
       [ first [ by exists [msg]
               | exists []; rewrite app_nil_r; split; [done|apply sublist_nil_l] ]
       | intros Hc Hfd; specialize (Hconn Hc); simplify_eq; try done;
         exfalso;
         match goal with
         | H : negb (connected _) || _ = true |- _ =>
           rewrite Hc in H; simpl in H; lia
         end ]). }
  destruct (Safekeeper.append_wal_record net tl rec (c, tr)) as [r [c' tr']].
  simpl in Hsd. tauto.
Qed.

Lemma wire_cons q read hs :
  omap wire ((q, read) :: hs)
  = (let '(len, msg) :=
       Safekeeper.serialize_append_request (timeline_id q) read 4096 in
     if len <? 0 then [] else [msg]) ++ omap wire hs.
Proof.
  cbn [omap list_omap]. unfold wire at 1. cbn [fst snd].
  destruct (Safekeeper.serialize_append_request _ _ _) as [len msg].
  by destruct (len <? 0).
Qed.

(** C8.  Whatever the interleaving of submitters, writes to the callers'
    buffers, worker turns and the request to shut down: the worker takes a
    request at every turn at which no shutdown has been requested and the
    queue is not empty, and the requests it has taken are the first of those
    queued at the start followed by the submitted ones, in that order, the
    rest being still queued in that order.  Each request is appended with
    its own timeline, LSN and length and with the bytes its pointer leads to
    when the worker reads them, which are those of the start when nothing
    in the schedule writes to that buffer.  The messages handed to [send]
    are messages of the requests taken, in that order; on a client that
    holds a connection they are exactly the messages of all the requests
    taken that fit the buffer, one [send] each. *)
Theorem worker_appends_in_submission_order net sched : forall s,
  let '((sts, hs), s') := run_schedule net sched s in
  let all := append_queue s ++ submitted sched in
  let n := served sched (shutdown_requested (client s))
                  (List.length (append_queue s)) in
  map submission (map fst hs) = map submission (take n all) /\
  append_queue s' = drop n all /\
  Forall (fun h =>
            WalRecord.lsn (snd h) = WalRecordRef.lsn (record (fst h)) /\
            WalRecord.length (snd h) = WalRecordRef.length (record (fst h)) /\
            (WalRecordRef.data (record (fst h)) ∉ stores sched ->
             snd h = load (memory s) (record (fst h)))) hs /\
  (exists msgs, sent (calls s') = sent (calls s) ++ msgs /\
                msgs `sublist_of` omap wire hs) /\
  (connected (client s) = true -> 0 <= socket_fd (client s) ->
   sent (calls s') = sent (calls s) ++ omap wire hs).
Proof.
  induction sched as [|a sched IH]; intros s.
  { cbn. rewrite !app_nil_r. repeat split; try done.
    exists []. by rewrite app_nil_r. }
  destruct a as [tl r| | |p bytes]; cbn [run_schedule served].
  - (* a caller submits *)
    unfold append_wal_record_async.
    specialize (IH (mkState (memory s)
                      (append_queue s ++ [WalAppendRequest_new tl r])
                      (client s) (calls s))).
    destruct (run_schedule net sched _) as [[sts hs] s'].
    cbn [memory append_queue client calls] in IH.
    rewrite length_app, Nat.add_1_r, <- app_assoc in IH.
    exact IH.
  - (* the worker takes a turn *)
    unfold worker_thread_turn.
    destruct (shutdown_requested (client s)) eqn:Hsd.
    { specialize (IH s). rewrite Hsd in IH.
      destruct (run_schedule net sched s) as [[sts hs] s']. exact IH. }
    destruct (append_queue s) as [|request rest] eqn:Hq.
    { specialize (IH s). rewrite Hsd, Hq in IH.
      destruct (run_schedule net sched s) as [[sts hs] s']. exact IH. }
    unfold process_append_request. cbn [memory append_queue client calls].
    pose proof (append_wal_record_messages net (timeline_id request)
                  (load (memory s) (record request)) (client s) (calls s))
      as Happ.
    pose proof (wire_cons
                  (mkWalAppendRequest (timeline_id request) (record request) true
                     (fst (Safekeeper.append_wal_record net (timeline_id request)
                             (load (memory s) (record request))
                             (client s, calls s))))
                  (load (memory s) (record request))) as Hwire.
    cbn [timeline_id] in Hwire.
    destruct (Safekeeper.serialize_append_request _ _ _) as [len msg].
    destruct (Safekeeper.append_wal_record net _ _ _) as [r [c' tr']].
    cbn [fst] in Hwire.
    destruct Happ as (Hsd' & (m1 & Hm1 & Hsub1) & Hconn).
    specialize (IH (mkState (memory s) rest c' tr')).
    destruct (run_schedule net sched _) as [[sts hs] s'].
    cbn [memory append_queue client calls] in IH.
    rewrite Hsd', Hsd in IH.
    destruct IH as (Hfifo & Hrest & Hdata & (m2 & Hm2 & Hsub2) & Hexact).
    cbn [List.length app]. split; [|split; [|split; [|split]]].
    + cbn [map fst take]. by rewrite Hfifo.
    + done.
    + constructor; [done|]. eapply Forall_impl; [exact Hdata|].
      intros h (? & ? & Hh). repeat split; try done.
    + exists (m1 ++ m2). rewrite Hm2, Hm1, <- app_assoc. split; [done|].
      rewrite Hwire. by apply sublist_app.
    + intros Hc Hfd. destruct (Hconn Hc Hfd) as [-> Hs1].
      rewrite (Hexact Hc Hfd), Hs1, Hwire, <- app_assoc. done.
  - (* the destructor asks the worker to stop *)
    specialize (IH (mkState (memory s) (append_queue s)
                      (Safekeeper.set_shutdown_requested true (client s))
                      (calls s))).
    destruct (run_schedule net sched _) as [[sts hs] s']. exact IH.
  - (* a caller writes to a buffer *)
    specialize (IH (mkState (store p bytes (memory s)) (append_queue s)
                      (client s) (calls s))).
    destruct (run_schedule net sched _) as [[sts hs] s'].
    cbn [memory append_queue client calls] in IH.
    destruct IH as (Hfifo & Hrest & Hdata & Hsub & Hexact).
    repeat split; try done.
    eapply Forall_impl; [exact Hdata|].
    intros h (? & ? & Hh). repeat split; try done.
    intros Hnin. cbn [stores omap list_omap] in Hnin.
    apply not_elem_of_cons in Hnin as [Hne Hnin].
    rewrite (Hh Hnin). unfold load, store. by rewrite decide_False.
Qed.

(** The scenario of three records L1, L2, L3, each in a buffer of its own,
    submitted in that order with the worker running in between. *)
Definition three_buffers : Memory :=
  store 1%positive [x4c; x31]
    (store 2%positive [x4c; x32] (store 3%positive [x4c; x33] (fun _ => []))).

Definition three_submissions : list Action :=
  [act_submit (TimelineId.mk 7) (WalRecordRef.mk 1 2 1%positive);
   act_submit (TimelineId.mk 7) (WalRecordRef.mk 2 2 2%positive);
   act_worker;
   act_submit (TimelineId.mk 7) (WalRecordRef.mk 3 2 3%positive);
   act_worker; act_worker; act_worker].

Lemma worker_appends_in_submission_order_witness :
  let '((sts, hs), s') :=
    run_schedule (SafekeeperFacts.net_ack "ok") three_submissions
      (mkState three_buffers [] SafekeeperFacts.connected_client []) in
  map submission (map fst hs)
  = [(TimelineId.mk 7, WalRecordRef.mk 1 2 1%positive);
     (TimelineId.mk 7, WalRecordRef.mk 2 2 2%positive);
     (TimelineId.mk 7, WalRecordRef.mk 3 2 3%positive)] /\
  map snd hs = [WalRecord.mk 1 2 [x4c; x31]; WalRecord.mk 2 2 [x4c; x32];
                WalRecord.mk 3 2 [x4c; x33]] /\
  sent (calls s') = omap wire hs /\
  List.length (sent (calls s')) = 3%nat.
Proof.
  pose proof (worker_appends_in_submission_order (SafekeeperFacts.net_ack "ok")
                three_submissions
                (mkState three_buffers [] SafekeeperFacts.connected_client []))
    as H.
  destruct (run_schedule _ _ _) as [[sts hs] s'] eqn:Hrun.
  destruct H as (Hfifo & _ & _ & _ & Hexact).
  split; [rewrite Hfifo; reflexivity|].
  split; [by vm_compute in Hrun; injection Hrun as <- <- <-|].
  split; [apply Hexact; [reflexivity|vm_compute; discriminate]|].
  by vm_compute in Hrun; injection Hrun as <- <- <-.
Defined.

(** X30.  A queued request keeps the caller's pointer, not the bytes: when
    the caller writes to the buffer after [append_wal_record_async] has
    returned and before the worker's turn, the worker appends the record
    with the bytes written last, and what the buffer held when the record
    was submitted is never sent. *)
Theorem queued_record_is_read_when_sent net tl r bytes m c tr :
  connected c = true -> 0 <= socket_fd c -> shutdown_requested c = false ->
  let overwritten :=
    WalRecord.mk (WalRecordRef.lsn r) (WalRecordRef.length r) bytes in
  let '((sts, hs), s') :=
    run_schedule net [act_submit tl r; act_store (WalRecordRef.data r) bytes;
                      act_worker]
                 (mkState m [] c tr) in
  sts = [0] /\
  map snd hs = [overwritten] /\
  sent (calls s')
  = sent tr ++ option_list (wire (WalAppendRequest_new tl r, overwritten)).
Proof.
  intros Hc Hfd Hsd overwritten.
  cbn [run_schedule append_wal_record_async memory append_queue client calls app].
  unfold worker_thread_turn. cbn [memory append_queue client calls].
  rewrite Hsd. unfold process_append_request.
  cbn [memory append_queue client calls record timeline_id WalAppendRequest_new].
  assert (load (store (WalRecordRef.data r) bytes m) r = overwritten) as ->.
  { unfold load, store. by rewrite decide_True. }
  pose proof (append_wal_record_messages net tl overwritten c tr) as Happ.
  unfold wire. cbn [fst snd timeline_id WalAppendRequest_new].
  destruct (Safekeeper.serialize_append_request tl overwritten 4096)
    as [len msg].
  destruct (Safekeeper.append_wal_record net tl overwritten (c, tr))
    as [res [c' tr']].
  destruct Happ as (_ & _ & Hconn). destruct (Hconn Hc Hfd) as [-> Hsent].
  cbn [run_schedule map snd fst calls]. split; [done|]. split; [done|].
  rewrite Hsent. by destruct (len <? 0).
Qed.

Lemma queued_record_is_read_when_sent_witness :
  let '((sts, hs), s') :=
    run_schedule (SafekeeperFacts.net_ack "ok")
      [act_submit (TimelineId.mk 7) (WalRecordRef.mk 1 2 1%positive);
       act_store 1%positive [x4c; x32]; act_worker]
      (mkState three_buffers [] SafekeeperFacts.connected_client []) in
  map snd hs = [WalRecord.mk 1 2 [x4c; x32]].
Proof.
  pose proof (queued_record_is_read_when_sent (SafekeeperFacts.net_ack "ok")
                (TimelineId.mk 7) (WalRecordRef.mk 1 2 1%positive) [x4c; x32]
                three_buffers SafekeeperFacts.connected_client []
                eq_refl ltac:(vm_compute; discriminate) eq_refl) as H.
  cbn [WalRecordRef.lsn WalRecordRef.length WalRecordRef.data] in H.
  destruct (run_schedule _ _ _) as [[sts hs] s']. tauto.
Defined.

(** ** Queueing the bytes and queueing the pointer *)

Lemma append_wal_record_beside_queue net tl rec q c tr :
  Safekeeper.append_wal_record net tl rec (Safekeeper.set_append_queue q c, tr)
  = let '(r, (c', tr')) := Safekeeper.append_wal_record net tl rec (c, tr) in
    (r, (Safekeeper.set_append_queue q c', tr')).
Proof.
  unfold Safekeeper.append_wal_record.
  destruct (Safekeeper.serialize_append_request tl rec 4096) as [len msg].
  SafekeeperFacts.sk_unfold. simpl.
  repeat (case_match; simplify_eq/=); try done.
Qed.

(** The schedule of [Safekeeper] a schedule amounts to when every record
    is read as it is submitted. *)
Definition by_value (m : Memory) (a : Action) : option Safekeeper.Action :=
  match a with
  | act_submit tl r => Some (Safekeeper.act_submit tl (load m r))
  | act_worker => Some Safekeeper.act_worker
  | act_request_shutdown => Some Safekeeper.act_request_shutdown
  | act_store _ _ => None
  end.

Definition snapshot (m : Memory) (q : WalAppendRequest)
  : Safekeeper.WalAppendRequest :=
  Safekeeper.mkWalAppendRequest (timeline_id q) (load m (record q))
                                (completed q) (result q).

(** As long as no caller writes to a buffer, queueing the bytes and
    queueing the pointer come to the same: the run of [Safekeeper], whose
    requests carry the bytes read at submission, gives the statuses, the
    requests handled, the calls and the client of the run that keeps the
    pointers. *)
Lemma by_value_run_agrees net sched : forall s,
  stores sched = [] ->
  let m := memory s in
  let '((sts, hs), s') := run_schedule net sched s in
  Safekeeper.run_schedule net (omap (by_value m) sched)
    (Safekeeper.set_append_queue (map (snapshot m) (append_queue s)) (client s),
     calls s)
  = ((sts, map (fun h => snapshot m (fst h)) hs),
     (Safekeeper.set_append_queue (map (snapshot m) (append_queue s')) (client s'),
      calls s')).
Proof.
  induction sched as [|a sched IH]; intros s Hst; [done|].
  destruct a as [tl r| | |p bytes]; [| | |done];
    cbn [run_schedule omap list_omap by_value Safekeeper.run_schedule].
  - unfold append_wal_record_async.
    specialize (IH (mkState (memory s)
                      (append_queue s ++ [WalAppendRequest_new tl r])
                      (client s) (calls s)) Hst).
    destruct (run_schedule net sched _) as [[sts hs] s'].
    cbn [memory append_queue client calls] in IH.
    unfold bind at 1, Safekeeper.append_wal_record_async, Safekeeper.update,
      modify, bind, ret. cbn [fst snd].
    rewrite map_app in IH. cbn [map] in IH.
    change (list_omap _ _ (by_value (memory s)) sched)
      with (omap (by_value (memory s)) sched).
    unfold bind in IH.
    replace (Safekeeper.set_append_queue _ (Safekeeper.set_append_queue _ _))
      with (Safekeeper.set_append_queue
              (map (snapshot (memory s)) (append_queue s)
               ++ [snapshot (memory s) (WalAppendRequest_new tl r)]) (client s))
      by done.
    by rewrite IH.
  - unfold worker_thread_turn.
    unfold bind at 1, Safekeeper.worker_thread_turn, Safekeeper.this, gets,
      bind at 1. cbn [fst snd].
    change (list_omap _ _ (by_value (memory s)) sched)
      with (omap (by_value (memory s)) sched).
    change (Safekeeper.shutdown_requested
              (Safekeeper.set_append_queue _ (client s)))
      with (Safekeeper.shutdown_requested (client s)).
    destruct (Safekeeper.shutdown_requested (client s)) eqn:Hsd.
    { specialize (IH s Hst).
      destruct (run_schedule net sched s) as [[sts hs] s'].
      unfold ret, bind. by rewrite IH. }
    change (Safekeeper.append_queue (Safekeeper.set_append_queue ?q _)) with q.
    destruct (append_queue s) as [|request rest] eqn:Hq.
    { specialize (IH s Hst). rewrite Hq in IH.
      destruct (run_schedule net sched s) as [[sts hs] s'].
      unfold ret, bind. cbn [map] in *. by rewrite IH. }
    cbn [map]. unfold process_append_request.
    cbn [memory append_queue client calls].
    unfold bind at 1, Safekeeper.update, modify. cbn [fst snd].
    unfold bind at 1, Safekeeper.process_append_request.
    cbn [snapshot Safekeeper.timeline Safekeeper.record].
    replace (Safekeeper.set_append_queue _ (Safekeeper.set_append_queue _ _))
      with (Safekeeper.set_append_queue (map (snapshot (memory s)) rest)
              (client s)) by done.
    rewrite append_wal_record_beside_queue.
    destruct (Safekeeper.append_wal_record net _ _ _) as [r [c' tr']].
    specialize (IH (mkState (memory s) rest c' tr') Hst).
    destruct (run_schedule net sched _) as [[sts hs] s'].
    cbn [memory append_queue client calls] in IH.
    unfold ret, bind. rewrite IH. done.
  - specialize (IH (mkState (memory s) (append_queue s)
                      (Safekeeper.set_shutdown_requested true (client s))
                      (calls s)) Hst).
    destruct (run_schedule net sched _) as [[sts hs] s'].
    cbn [memory append_queue client calls] in IH.
    unfold bind, Safekeeper.update, modify. cbn [fst snd].
    change (list_omap _ _ (by_value (memory s)) sched)
      with (omap (by_value (memory s)) sched).
    replace (Safekeeper.set_shutdown_requested true (Safekeeper.set_append_queue _ _))
      with (Safekeeper.set_append_queue (map (snapshot (memory s)) (append_queue s))
              (Safekeeper.set_shutdown_requested true (client s))) by done.
    by rewrite IH.
Qed.

End PipelineFacts.

Module HandlerFacts.
Import Handler.

(** An environment in which everything works: the clock advances with
    every call the handler makes, the pool always has client 1 (pageserver)
    and client 2 (safekeeper) ready, every page read succeeds and fills the
    buffer, and every append is acknowledged. *)
Definition env_ok : Env :=
  fun history c =>
    match c return ans c with
    | call_time => Z.of_nat (List.length history)
    | call_get_pageserver_connection => Some 1%positive
    | call_read_page _ _ _ buffer_size =>
      (0, replicate (Z.to_nat buffer_size) x2a)
    | call_return_pageserver_connection _ => tt
    | call_get_safekeeper_connection => Some 2%positive
    | call_append_wal_record _ _ _ => 0
    | call_return_safekeeper_connection _ => tt
    end.

Definition world0 : World := mkWorld [] 0.

Ltac h_unfold :=
  unfold write_page_to_safekeeper, count_network_call, call, this, update,
    bind, ret, gets, modify.

(** ** What the cache operations do to the map and the list *)

Lemma write_page_keeps_cache env page_id d h w :
  let '(_, (h', w')) := write_page_to_safekeeper env page_id d (h, w) in
  page_cache h' = page_cache h /\ lru_list h' = lru_list h /\
  current_timeline h' = current_timeline h /\
  write_back_attempts (trace w') = S (write_back_attempts (trace w)) /\
  write_backs (trace w')
  = write_backs (trace w)
    ++ match env (trace w) call_get_safekeeper_connection with
       | Some _ => [(current_timeline h,
                     WalRecord.mk (current_lsn h) MARIADB_PAGE_SIZE d)]
       | None => []
       end.
Proof.
  h_unfold. simpl.
  unfold write_back_attempts, write_backs.
  destruct (env (trace w) call_get_safekeeper_connection) as [client|]; simpl;
    rewrite ?omap_app, ?length_app; simpl; rewrite ?app_nil_r;
    repeat split; try done; lia.
Qed.

Lemma evict_effect env key h w :
  let '(_, (h', w')) := evict_page_from_cache env key (h, w) in
  page_cache h' = delete key (page_cache h) /\
  lru_list h' = filter (fun k => k <> key) (lru_list h).
Proof.
  unfold evict_page_from_cache, bind at 1, this, gets, bind at 1. simpl.
  destruct (page_cache h !! key) as [page|] eqn:Hk.
  - unfold bind at 1. destruct (dirty page).
    + unfold bind at 1.
      pose proof (write_page_keeps_cache env (page_id page) (data page) h w) as H.
      destruct (write_page_to_safekeeper _ _ _ _) as [r [h1 w1]].
      destruct H as (Hc & Hl & _). unfold ret, update, modify. simpl.
      by rewrite Hc, Hl.
    + unfold ret, update, modify. done.
  - unfold ret, update, modify. simpl. split; [|done].
    symmetry. by apply delete_id.
Qed.

(** The entry an insertion evicts: the back of [lru_list] when the cache
    is full, none otherwise. *)
Definition victim (h : ha_serverless) : option Z :=
  if MAX_CACHED_PAGES <=? Z.of_nat (size (page_cache h))
  then last (lru_list h) else None.

Lemma read_page_cache_effect env pid buf h w :
  let key := page_key pid in
  let '(res, (h', w')) := read_page_from_cache_or_pageserver env pid buf (h, w) in
  match page_cache h !! key with
  | Some page =>
    fst res = 0 /\
    exists t, page_cache h' = <[key := set_last_access t page]> (page_cache h) /\
              lru_list h' = lru_list h
  | None =>
    (fst res <> 0 /\ page_cache h' = page_cache h /\ lru_list h' = lru_list h) \/
    (fst res = 0 /\
     exists new, page_id new = pid /\ dirty new = false /\
       page_cache h'
       = <[key := new]> (from_option (fun b => delete b (page_cache h))
                                     (page_cache h) (victim h)) /\
       lru_list h'
       = key :: from_option (fun b => filter (fun k => k <> b) (lru_list h))
                            (lru_list h) (victim h))
  end.
Proof.
  unfold read_page_from_cache_or_pageserver, bind at 1, this, gets. simpl.
  destruct (page_cache h !! page_key pid) as [page|] eqn:Hk.
  { h_unfold. simpl. split; [done|]. eauto. }
  unfold bind at 1, count_network_call, modify. simpl.
  unfold bind at 1, call at 1. simpl.
  destruct (env (trace w) call_get_pageserver_connection) as [client|].
  2: { unfold ret. left. done. }
  unfold bind at 1, call at 1. simpl.
  destruct (env _ (call_read_page _ _ _ _)) as [result buffer].
  destruct (decide (result = 0)) as [->|Hres].
  2: { h_unfold. simpl. left. done. }
  unfold bind at 1, bind at 1, this, gets, bind at 1. simpl. unfold victim.
  destruct (MAX_CACHED_PAGES <=? _).
  - destruct (last (lru_list h)) as [back|].
    + match goal with
      | |- context [evict_page_from_cache env back (h, ?w1)] =>
        pose proof (evict_effect env back h w1) as H;
        destruct (evict_page_from_cache env back (h, w1)) as [[] [h1 w2]]
      end.
      destruct H as [Hc Hl].
      h_unfold. simpl. right. split; [done|].
      eexists (mkCachedPage pid _ 0 false _). rewrite Hc, Hl. done.
    + h_unfold. simpl. right. split; [done|].
      eexists (mkCachedPage pid _ 0 false _). done.
  - h_unfold. simpl. right. split; [done|].
    eexists (mkCachedPage pid _ 0 false _). done.
Qed.

(** ** The capacity bound *)

Definition cache_wf (h : ha_serverless) : Prop :=
  NoDup (lru_list h) /\
  (forall k, k ∈ lru_list h <-> is_Some (page_cache h !! k)) /\
  Z.of_nat (size (page_cache h)) <= MAX_CACHED_PAGES.

Lemma cache_wf_new : cache_wf ha_serverless_new.
Proof.
  split; [constructor|]. split.
  - intros k. simpl. rewrite lookup_empty, elem_of_nil.
    split; [done|]. by intros [? ?].
  - simpl. rewrite map_size_empty. unfold MAX_CACHED_PAGES. lia.
Qed.

Lemma read_page_preserves_wf env pid buf h w :
  cache_wf h ->
  cache_wf (fst (snd (read_page_from_cache_or_pageserver env pid buf (h, w)))).
Proof.
  intros (Hnd & Hin & Hsz).
  pose proof (read_page_cache_effect env pid buf h w) as H.
  destruct (read_page_from_cache_or_pageserver env pid buf (h, w))
    as [res [h' w']]. simpl in *.
  destruct (page_cache h !! page_key pid) as [page|] eqn:Hk.
  - destruct H as (_ & t & Hc & Hl). unfold cache_wf. rewrite Hc, Hl.
    split; [done|]. split.
    + intros k. rewrite Hin, lookup_insert_is_Some.
      destruct (decide (page_key pid = k)) as [<-|]; [|tauto].
      rewrite Hk. split; [by left|by eauto].
    + by rewrite map_size_insert_Some by (by rewrite Hk).
  - destruct H as [(_ & Hc & Hl)|(_ & new & _ & _ & Hc & Hl)].
    { unfold cache_wf. by rewrite Hc, Hl. }
    assert (page_key pid ∉ lru_list h) as Hfresh.
    { rewrite Hin, Hk. by intros [? ?]. }
    unfold victim in *.
    destruct (Z.leb_spec MAX_CACHED_PAGES (Z.of_nat (size (page_cache h))))
      as [Hfull|Hroom].
    + destruct (last (lru_list h)) as [back|] eqn:Hlast; simpl in *.
      * assert (is_Some (page_cache h !! back)) as Hback.
        { apply Hin. by apply last_Some_elem_of. }
        assert (page_key pid <> back) as Hne.
        { intros Heq. rewrite Heq in Hk. rewrite Hk in Hback.
          by destruct Hback. }
        unfold cache_wf. rewrite Hc, Hl. split; [|split].
        -- constructor.
           ++ rewrite list_elem_of_filter. tauto.
           ++ by apply NoDup_filter.
        -- intros k. rewrite elem_of_cons, list_elem_of_filter, Hin,
             lookup_insert_is_Some, lookup_delete_is_Some.
           destruct (decide (page_key pid = k)); naive_solver.
        -- rewrite map_size_insert_None by (by rewrite lookup_delete_ne).
           rewrite map_size_delete_Some by done.
           destruct Hback as [pb Hpb].
           assert (size (page_cache h) <> 0%nat).
           { intros Hz. apply map_size_empty_inv in Hz.
             rewrite Hz, lookup_empty in Hpb. done. }
           lia.
      * apply last_None in Hlast.
        assert (page_cache h = ∅) as Hempty.
        { apply map_empty. intros k. apply eq_None_not_Some.
          rewrite <- Hin, Hlast. apply not_elem_of_nil. }
        rewrite Hempty, map_size_empty in Hfull.
        unfold MAX_CACHED_PAGES in Hfull. lia.
    + simpl in *. unfold cache_wf. rewrite Hc, Hl. split; [|split].
      * by constructor.
      * intros k. rewrite elem_of_cons, Hin, lookup_insert_is_Some.
        destruct (decide (page_key pid = k)); naive_solver.
      * rewrite map_size_insert_None by done. lia.
Qed.

Lemma read_pages_preserves_wf env pids : forall h w,
  cache_wf h -> cache_wf (fst (snd (read_pages env pids (h, w)))).
Proof.
  induction pids as [|pid pids IH]; intros h w Hwf; [done|].
  simpl. unfold bind at 1.
  pose proof (read_page_preserves_wf env pid (malloc MARIADB_PAGE_SIZE) h w Hwf)
    as Hstep.
  destruct (read_page_from_cache_or_pageserver _ _ _ _) as [[r b] [h1 w1]].
  unfold bind at 1. specialize (IH h1 w1 Hstep).
  destruct (read_pages env pids (h1, w1)) as [rs [h2 w2]]. done.
Qed.

(** The part of C1 that holds: whatever pages a session reads and
    whatever the environment answers, the cache never holds more than
    [MAX_CACHED_PAGES] entries. *)
Lemma cache_never_exceeds_capacity env pids w :
  Z.of_nat (size (page_cache (fst (snd (read_pages env pids (ha_serverless_new, w))))))
  <= MAX_CACHED_PAGES.
Proof. apply read_pages_preserves_wf, cache_wf_new. Qed.

(** ** Eviction order *)

(** The pages [0 .. n-1] of timeline 1. *)
Definition pages (n : Z) : list PageId := mkPageId 1 <$> seqZ 0 n.

(** A session reads 1024 different pages, which fills the cache, and then
    reads the first of them once more. *)
Definition filled : ha_serverless * World :=
  snd (read_pages env_ok (pages 1024 ++ [mkPageId 1 0]) (ha_serverless_new, world0)).

(** It then reads a page that is not cached. *)
Definition after_insert : ha_serverless * World :=
  snd (read_page_from_cache_or_pageserver env_ok (mkPageId 1 1024)
         (malloc MARIADB_PAGE_SIZE) filled).

(** C1, a run on which the eviction is not least recently used.  With the
    cache full, page 0 of timeline 1 is the entry used last (at time 4096)
    and page 1 was last used at time 6.  The insertion of a new page evicts
    page 0, the back of [lru_list], and keeps page 1: the entry evicted is
    the one inserted first, not the one with the oldest [last_access]. *)
Theorem eviction_ignores_last_access :
  let page0 := page_key (mkPageId 1 0) in
  let page1 := page_key (mkPageId 1 1) in
  Z.of_nat (size (page_cache (fst filled))) = MAX_CACHED_PAGES /\
  last_access <$> page_cache (fst filled) !! page0 = Some 4096 /\
  last_access <$> page_cache (fst filled) !! page1 = Some 6 /\
  victim (fst filled) = Some page0 /\
  page_cache (fst after_insert) !! page0 = None /\
  last_access <$> page_cache (fst after_insert) !! page1 = Some 6 /\
  Z.of_nat (size (page_cache (fst after_insert))) = MAX_CACHED_PAGES.
Proof. vm_compute. done. Qed.

(** ** Write-back of dirty pages *)

Definition dirty_pages (h : ha_serverless) : nat :=
  List.length (filter (fun kv => dirty (snd kv) = true) (map_to_list (page_cache h))).

Lemma flush_dirty_pages_effect env entries : forall h w,
  let '(_, (h', w')) := flush_dirty_pages env entries (h, w) in
  page_cache h' = page_cache h /\ lru_list h' = lru_list h /\
  write_back_attempts (trace w')
  = (write_back_attempts (trace w)
     + List.length (filter (fun kv => dirty (snd kv) = true) entries))%nat.
Proof.
  induction entries as [|[k page] entries IH]; intros h w.
  { simpl. unfold ret. rewrite Nat.add_0_r. done. }
  simpl. unfold bind at 1. rewrite filter_cons. simpl.
  destruct (dirty page) eqn:Hd.
  - unfold bind at 1.
    pose proof (write_page_keeps_cache env (page_id page) (data page) h w) as H.
    destruct (write_page_to_safekeeper _ _ _ _) as [r [h1 w1]].
    destruct H as (Hc & Hl & _ & Hn & _). unfold ret.
    specialize (IH h1 w1).
    destruct (flush_dirty_pages env entries (h1, w1)) as [[] [h2 w2]].
    destruct IH as (-> & -> & ->).
    rewrite decide_True by done. simpl. rewrite Hn. repeat split; [done..|lia].
  - unfold ret. specialize (IH h w).
    destruct (flush_dirty_pages env entries (h, w)) as [[] [h2 w2]].
    rewrite decide_False by done. done.
Qed.

(** What the three functions do with an entry whose flag is set.
    Evicting it asks exactly once for its write-back: one attempt, and when
    the pool hands out a connection one append of the page's data under the
    handler's next LSN.  [close] makes one attempt per dirty page and keeps
    the entries; the destructor discards every entry without writing
    anything.  No path of the code sets the flag
    ([pages_are_never_written_back] below), so none of this is ever seen on
    a cache the handler has built itself. *)
Lemma dirty_page_write_back env h w key page :
  page_cache h !! key = Some page ->
  dirty page = true ->
  (let '(_, (h1, w1)) := evict_page_from_cache env key (h, w) in
   page_cache h1 = delete key (page_cache h) /\
   write_back_attempts (trace w1) = S (write_back_attempts (trace w)) /\
   write_backs (trace w1)
   = write_backs (trace w)
     ++ match env (trace w) call_get_safekeeper_connection with
        | Some _ => [(current_timeline h,
                      WalRecord.mk (current_lsn h) MARIADB_PAGE_SIZE (data page))]
        | None => []
        end) /\
  (let '(r, (h2, w2)) := close env (h, w) in
   r = 0 /\ page_cache h2 = page_cache h /\
   write_back_attempts (trace w2)
   = (write_back_attempts (trace w) + dirty_pages h)%nat) /\
  (let '(_, (h3, w3)) := destroy (h, w) in
   page_cache h3 = ∅ /\ w3 = w).
Proof.
  intros Hk Hd. split; [|split].
  - unfold evict_page_from_cache, bind at 1, this, gets, bind at 1. simpl.
    rewrite Hk, Hd. unfold bind at 1, bind at 1.
    pose proof (write_page_keeps_cache env (page_id page) (data page) h w) as H.
    destruct (write_page_to_safekeeper _ _ _ _) as [r [h1 w1]].
    destruct H as (Hc & _ & _ & Hn & Hw). unfold ret, update, modify. simpl.
    by rewrite Hc.
  - unfold close, bind at 1, this, gets, bind at 1. simpl.
    pose proof (flush_dirty_pages_effect env (map_to_list (page_cache h)) h w) as H.
    destruct (flush_dirty_pages _ _ _) as [[] [h2 w2]]. unfold ret.
    destruct H as (? & _ & ?). done.
  - done.
Qed.

(** A handler whose cache holds one page, modified and not yet written. *)
Definition dirty_page : CachedPage :=
  mkCachedPage (mkPageId 1 0) (replicate (Z.to_nat MARIADB_PAGE_SIZE) x2a) 0 true 5.

Definition dirty_handler : ha_serverless :=
  mk_ha_serverless (TimelineId.mk 1) {[page_key (mkPageId 1 0) := dirty_page]}
                   [page_key (mkPageId 1 0)] 9.

Example dirty_page_write_back_on_eviction :
  let '(_, (h1, w1)) :=
    evict_page_from_cache env_ok (page_key (mkPageId 1 0)) (dirty_handler, world0) in
  write_back_attempts (trace w1) = 1%nat.
Proof.
  pose proof (dirty_page_write_back env_ok dirty_handler world0
                (page_key (mkPageId 1 0)) dirty_page eq_refl eq_refl) as [H _].
  destruct (evict_page_from_cache _ _ _) as [[] [h1 w1]]. tauto.
Defined.

(** The destructor on a handler whose cache holds a dirty page: the page
    is discarded, and no write-back is attempted. *)
Example destructor_discards_dirty_page :
  page_cache dirty_handler !! page_key (mkPageId 1 0) = Some dirty_page /\
  dirty dirty_page = true /\
  let '(_, (h', w')) := destroy (dirty_handler, world0) in
  page_cache h' = ∅ /\
  write_back_attempts (trace w') = 0%nat /\
  write_backs (trace w') = [].
Proof. done. Qed.

(** ** Reading a page twice *)

Lemma memcpy_page (dst src : list byte) n :
  List.length dst = Z.to_nat n -> List.length src = Z.to_nat n ->
  memcpy dst src n = src.
Proof.
  intros Hd Hs. unfold memcpy.
  rewrite take_ge by lia. rewrite drop_ge by lia. apply app_nil_r.
Qed.

Lemma malloc_length n : List.length (malloc n) = Z.to_nat n.
Proof. unfold malloc. apply length_replicate. Qed.

(** What a read leaves in the cache under the key of the page, when it
    returns 0: an entry whose data, copied into a buffer of one page, gives
    the bytes the read returned. *)
Lemma read_page_caches_result env p buf h w b h1 w1 :
  List.length buf = Z.to_nat MARIADB_PAGE_SIZE ->
  List.length b = Z.to_nat MARIADB_PAGE_SIZE ->
  read_page_from_cache_or_pageserver env p buf (h, w) = ((0, b), (h1, w1)) ->
  exists page, page_cache h1 !! page_key p = Some page /\
    forall buf2, List.length buf2 = Z.to_nat MARIADB_PAGE_SIZE ->
                 memcpy buf2 (data page) MARIADB_PAGE_SIZE = b.
Proof.
  intros Hbuf Hb.
  unfold read_page_from_cache_or_pageserver, bind at 1, this, gets. simpl.
  destruct (page_cache h !! page_key p) as [page|] eqn:Hk.
  { h_unfold. simpl. intros [= <- <- <-].
    eexists. simpl. rewrite lookup_insert_eq. split; [done|].
    intros buf2 Hbuf2. simpl. unfold memcpy.
    rewrite (drop_ge buf) by lia. by rewrite (drop_ge buf2) by lia. }
  unfold bind at 1, count_network_call, modify. simpl.
  unfold bind at 1, call at 1. simpl.
  destruct (env (trace w) call_get_pageserver_connection) as [client|].
  2: { unfold ret. intros [= ? ? ? ?]; done. }
  unfold bind at 1, call at 1. simpl.
  destruct (env _ (call_read_page _ _ _ _)) as [result buffer].
  destruct (decide (result = 0)) as [->|Hres].
  2: { h_unfold. simpl. intros [= ? ? ? ?]; done. }
  unfold bind at 1, bind at 1, this, gets, bind at 1. simpl.
  match goal with
  | |- context [(if MAX_CACHED_PAGES <=? ?n then ?a else ?b) ?s] =>
    destruct ((if MAX_CACHED_PAGES <=? n then a else b) s) as [[] s1]
  end.
  h_unfold. simpl. intros [= <- <- <-].
  eexists. simpl. rewrite lookup_insert_eq. split; [done|].
  intros buf2 Hbuf2. simpl.
  rewrite (memcpy_page (malloc _) buffer) by (done || apply malloc_length).
  by apply memcpy_page.
Qed.

(** X23.  A read that returned 0 is repeatable: reading again a page with
    the same cache key returns 0 and the same bytes from the cache, with one
    look at the clock and no call to the network or the pool.  The key, not
    the page id, decides: the page of another timeline whose key collides is
    answered with these bytes as well. *)
Theorem reread_is_served_from_cache env p q buf buf2 h w b h1 w1 :
  List.length buf = Z.to_nat MARIADB_PAGE_SIZE ->
  List.length buf2 = Z.to_nat MARIADB_PAGE_SIZE ->
  List.length b = Z.to_nat MARIADB_PAGE_SIZE ->
  read_page_from_cache_or_pageserver env p buf (h, w) = ((0, b), (h1, w1)) ->
  page_key q = page_key p ->
  exists h2,
    read_page_from_cache_or_pageserver env q buf2 (h1, w1)
    = ((0, b), (h2, mkWorld (trace w1 ++ [call_time]) (network_calls w1))) /\
    lru_list h2 = lru_list h1.
Proof.
  intros Hbuf Hbuf2 Hb Hread Hkey.
  destruct (read_page_caches_result env p buf h w b h1 w1 Hbuf Hb Hread)
    as (page & Hpage & Hdata).
  unfold read_page_from_cache_or_pageserver, bind at 1, this, gets. simpl.
  rewrite Hkey, Hpage. h_unfold. simpl.
  rewrite (Hdata buf2 Hbuf2). eexists. split; [reflexivity|done].
Qed.

Lemma reread_is_served_from_cache_witness :
  let p := mkPageId 1 0 in
  let q := mkPageId (1 + 2 ^ 32) 0 in
  let b := replicate (Z.to_nat MARIADB_PAGE_SIZE) x2a in
  let s1 := read_page_from_cache_or_pageserver env_ok p
              (malloc MARIADB_PAGE_SIZE) (ha_serverless_new, world0) in
  let h1 := fst (snd s1) in
  let w1 := snd (snd s1) in
  exists h2,
    read_page_from_cache_or_pageserver env_ok q (malloc MARIADB_PAGE_SIZE) (h1, w1)
    = ((0, b), (h2, mkWorld (trace w1 ++ [call_time]) (network_calls w1))) /\
    lru_list h2 = lru_list h1.
Proof.
  intros p q b s1 h1 w1.
  apply (reread_is_served_from_cache env_ok p q (malloc MARIADB_PAGE_SIZE)
           (malloc MARIADB_PAGE_SIZE) ha_serverless_new world0 b h1 w1).
  - apply malloc_length.
  - apply malloc_length.
  - apply length_replicate.
  - vm_compute. reflexivity.
  - vm_compute. reflexivity.
Defined.

(** ** Leases of pageserver connections *)

(** The pageserver connections given back to the pool, in order. *)
Definition pageserver_returns (tr : list Call) : list Conn :=
  omap (fun c => match c with
                 | call_return_pageserver_connection client => Some client
                 | _ => None
                 end) tr.

Lemma pageserver_returns_app tr1 tr2 :
  pageserver_returns (tr1 ++ tr2) = pageserver_returns tr1 ++ pageserver_returns tr2.
Proof. apply omap_app. Qed.

Lemma write_page_returns env page_id d h w :
  let '(_, (h', w')) := write_page_to_safekeeper env page_id d (h, w) in
  pageserver_returns (trace w') = pageserver_returns (trace w).
Proof.
  h_unfold. simpl.
  destruct (env (trace w) call_get_safekeeper_connection) as [client|]; simpl;
    rewrite ?pageserver_returns_app; simpl; by rewrite ?app_nil_r.
Qed.

Lemma evict_returns env key h w :
  let '(_, (h', w')) := evict_page_from_cache env key (h, w) in
  pageserver_returns (trace w') = pageserver_returns (trace w).
Proof.
  unfold evict_page_from_cache, bind at 1, this, gets, bind at 1. simpl.
  destruct (page_cache h !! key) as [page|] eqn:Hk.
  - unfold bind at 1. destruct (dirty page).
    + unfold bind at 1.
      pose proof (write_page_returns env (page_id page) (data page) h w) as H.
      destruct (write_page_to_safekeeper _ _ _ _) as [r [h1 w1]].
      unfold ret, update, modify. done.
    + unfold ret, update, modify. done.
  - unfold ret, update, modify. done.
Qed.

(** X24.  A read that misses the cache asks the pool for a pageserver
    connection.  When the pool has none the read fails with HA_ERR_GENERIC
    and leaves buffer and handler as they were; it has then counted one
    network call and made none.  When the pool has one, the read asks that connection for the page, and its
    last call gives the same connection back, exactly once, whether the
    page service answered well or not. *)
Theorem pageserver_lease_is_returned env p buf h w :
  page_cache h !! page_key p = None ->
  let '((r, b), (h', w')) := read_page_from_cache_or_pageserver env p buf (h, w) in
  match env (trace w) call_get_pageserver_connection with
  | None =>
    r = HA_ERR_GENERIC /\ b = buf /\ h' = h /\
    trace w' = trace w ++ [call_get_pageserver_connection] /\
    network_calls w' = wrap64 (network_calls w + 1)
  | Some client =>
    (r, b) = env (trace w ++ [call_get_pageserver_connection])
                 (call_read_page client p buf MARIADB_PAGE_SIZE) /\
    last (trace w') = Some (call_return_pageserver_connection client) /\
    pageserver_returns (trace w') = pageserver_returns (trace w) ++ [client]
  end.
Proof.
  intros Hk.
  unfold read_page_from_cache_or_pageserver, bind at 1, this, gets. simpl.
  rewrite Hk.
  unfold bind at 1, count_network_call, modify. simpl.
  unfold bind at 1, call at 1. simpl.
  destruct (env (trace w) call_get_pageserver_connection) as [client|].
  2: { unfold ret. done. }
  unfold bind at 1, call at 1. simpl.
  destruct (env _ (call_read_page _ _ _ _)) as [result buffer].
  destruct (decide (result = 0)) as [->|Hres].
  2: { h_unfold. simpl. rewrite last_snoc, !pageserver_returns_app. simpl.
       by rewrite !app_nil_r. }
  unfold bind at 1, bind at 1, this, gets, bind at 1. simpl.
  assert (forall s : ha_serverless * World,
    let '(_, (_, w')) :=
      (if MAX_CACHED_PAGES <=? Z.of_nat (size (page_cache h))
       then match last (lru_list h) with
            | Some back => evict_page_from_cache env back
            | None => ret tt
            end
       else ret tt) s in
    pageserver_returns (trace w') = pageserver_returns (trace (snd s))) as Hev.
  { intros [h0 w0]. destruct (MAX_CACHED_PAGES <=? _); [|done].
    destruct (last (lru_list h)) as [back|]; [|done].
    pose proof (evict_returns env back h0 w0) as H.
    destruct (evict_page_from_cache env back (h0, w0)) as [[] [h1 w1]]. done. }
  match goal with
  | |- context [(if MAX_CACHED_PAGES <=? ?n then ?a else ?b) ?s] =>
    assert (let '(_, (_, w')) := (if MAX_CACHED_PAGES <=? n then a else b) s in
            pageserver_returns (trace w') = pageserver_returns (trace (snd s)))
      as Hr by exact (Hev s);
    destruct ((if MAX_CACHED_PAGES <=? n then a else b) s) as [[] [h1 w1]]
  end.
  simpl in Hr.
  h_unfold. simpl. rewrite last_snoc, !pageserver_returns_app, Hr.
  rewrite !pageserver_returns_app. simpl. by rewrite !app_nil_r.
Qed.

Lemma pageserver_lease_is_returned_witness :
  let '((r, b), (h', w')) :=
    read_page_from_cache_or_pageserver env_ok (mkPageId 1 0)
      (malloc MARIADB_PAGE_SIZE) (ha_serverless_new, world0) in
  pageserver_returns (trace w') = [1%positive].
Proof.
  pose proof (pageserver_lease_is_returned env_ok (mkPageId 1 0)
                (malloc MARIADB_PAGE_SIZE) ha_serverless_new world0 eq_refl) as H.
  destruct (read_page_from_cache_or_pageserver _ _ _ _) as [[r b] [h' w']].
  simpl in H. tauto.
Defined.

(** ** Pages are never written back *)

(** No entry of the cache is marked modified. *)
Definition all_clean (h : ha_serverless) : Prop :=
  map_Forall (fun _ page => dirty page = false) (page_cache h).

Lemma evict_clean env key h w :
  all_clean h ->
  let '(_, (h', w')) := evict_page_from_cache env key (h, w) in
  all_clean h' /\ w' = w /\ current_lsn h' = current_lsn h.
Proof.
  intros Hclean.
  unfold evict_page_from_cache, bind at 1, this, gets, bind at 1. simpl.
  destruct (page_cache h !! key) as [page|] eqn:Hk.
  - rewrite (Hclean key page Hk). h_unfold. simpl. split; [|done].
    unfold all_clean. simpl. by apply map_Forall_delete.
  - h_unfold. simpl. done.
Qed.

Lemma read_page_clean env pid buf h w :
  all_clean h ->
  let '(_, (h', w')) := read_page_from_cache_or_pageserver env pid buf (h, w) in
  all_clean h' /\ current_lsn h' = current_lsn h /\
  write_back_attempts (trace w') = write_back_attempts (trace w) /\
  write_backs (trace w') = write_backs (trace w).
Proof.
  intros Hclean.
  unfold read_page_from_cache_or_pageserver, bind at 1, this, gets. simpl.
  destruct (page_cache h !! page_key pid) as [page|] eqn:Hk.
  { h_unfold. simpl. unfold write_back_attempts, write_backs.
    rewrite !omap_app, length_app. simpl. rewrite app_nil_r.
    split; [|split; [done|split; [lia|done]]].
    unfold all_clean. simpl. apply map_Forall_insert_2; [|done].
    simpl. by apply (Hclean _ _ Hk). }
  unfold bind at 1, count_network_call, modify. simpl.
  unfold bind at 1, call at 1. simpl.
  destruct (env (trace w) call_get_pageserver_connection) as [client|].
  2: { unfold ret. simpl. unfold write_back_attempts, write_backs.
       rewrite !omap_app, length_app. simpl. rewrite app_nil_r.
       repeat split; (done || lia). }
  unfold bind at 1, call at 1. simpl.
  destruct (env _ (call_read_page _ _ _ _)) as [result buffer].
  destruct (decide (result = 0)) as [->|Hres].
  2: { h_unfold. simpl. unfold write_back_attempts, write_backs.
       rewrite !omap_app, !length_app. simpl. rewrite !app_nil_r.
       repeat split; (done || lia). }
  unfold bind at 1, bind at 1, this, gets, bind at 1. simpl.
  assert (forall w0,
    let '(_, (h', w')) :=
      (if MAX_CACHED_PAGES <=? Z.of_nat (size (page_cache h))
       then match last (lru_list h) with
            | Some back => evict_page_from_cache env back
            | None => ret tt
            end
       else ret tt) (h, w0) in
    all_clean h' /\ w' = w0 /\ current_lsn h' = current_lsn h) as Hev.
  { intros w0. destruct (MAX_CACHED_PAGES <=? _); [|done].
    destruct (last (lru_list h)) as [back|]; [|done].
    by apply evict_clean. }
  match goal with
  | |- context [(if MAX_CACHED_PAGES <=? ?n then ?a else ?b) (h, ?w0)] =>
    assert (let '(_, (h', w')) := (if MAX_CACHED_PAGES <=? n then a else b) (h, w0) in
            all_clean h' /\ w' = w0 /\ current_lsn h' = current_lsn h)
      as Hr by exact (Hev w0);
    destruct ((if MAX_CACHED_PAGES <=? n then a else b) (h, w0)) as [[] [h1 w1]]
  end.
  destruct Hr as (Hc1 & -> & Hlsn).
  h_unfold. simpl. unfold write_back_attempts, write_backs.
  rewrite !omap_app, !length_app. simpl. rewrite !app_nil_r.
  split; [|split; [done|split; [lia|done]]].
  unfold all_clean. simpl. by apply map_Forall_insert_2.
Qed.

Lemma read_pages_clean env pids : forall h w,
  all_clean h ->
  let '(_, (h', w')) := read_pages env pids (h, w) in
  all_clean h' /\ current_lsn h' = current_lsn h /\
  write_back_attempts (trace w') = write_back_attempts (trace w) /\
  write_backs (trace w') = write_backs (trace w).
Proof.
  induction pids as [|pid pids IH]; intros h w Hclean; [done|].
  simpl. unfold bind at 1.
  pose proof (read_page_clean env pid (malloc MARIADB_PAGE_SIZE) h w Hclean)
    as Hstep.
  destruct (read_page_from_cache_or_pageserver _ _ _ _) as [[r b] [h1 w1]].
  destruct Hstep as (Hc1 & Hl1 & Ha1 & Hw1).
  unfold bind at 1. specialize (IH h1 w1 Hc1).
  destruct (read_pages env pids (h1, w1)) as [rs [h2 w2]].
  unfold ret. destruct IH as (? & ? & ? & ?).
  repeat split; [done|congruence..].
Qed.

Lemma flush_clean env entries : forall s,
  Forall (fun kv => dirty (snd kv) = false) entries ->
  flush_dirty_pages env entries s = (tt, s).
Proof.
  induction entries as [|[k page] entries IH]; intros s Hall; [done|].
  apply Forall_cons in Hall as [Hd Hall]. simpl in Hd.
  simpl. unfold bind at 1. rewrite Hd. unfold ret. by apply IH.
Qed.

(** X25.  Nothing in the handler marks a cached page as modified, so pages
    are never written back: a handler that starts with an empty cache, reads
    any pages under any behaviour of the pool and the page service, and is
    then closed, has asked for no safekeeper connection and appended
    nothing; [close] returns 0 without a single call, and the LSN counter is
    where it started. *)
Theorem pages_are_never_written_back env pids w :
  let '(_, (h1, w1)) := read_pages env pids (ha_serverless_new, w) in
  write_back_attempts (trace w1) = write_back_attempts (trace w) /\
  write_backs (trace w1) = write_backs (trace w) /\
  current_lsn h1 = 0 /\
  close env (h1, w1) = (0, (h1, w1)).
Proof.
  pose proof (read_pages_clean env pids ha_serverless_new w) as H.
  destruct (read_pages env pids (ha_serverless_new, w)) as [rs [h1 w1]].
  destruct H as (Hclean & Hlsn & Ha & Hw).
  { unfold all_clean. simpl. apply map_Forall_empty. }
  repeat split; try done.
  unfold close, bind at 1, this, gets, bind at 1. simpl.
  rewrite flush_clean; [done|].
  apply Forall_forall. intros [k page] Hin. simpl.
  apply elem_of_map_to_list in Hin. by apply (Hclean k page).
Qed.

End HandlerFacts.

Module EngineFacts.
Import Handler Engine.

(** ** The hash of a table name *)

Lemma char_to_int_zero signed b : char_to_int signed b = 0 <-> b = x00.
Proof.
  split; [|by intros ->; destruct signed].
  destruct signed, b; vm_compute; congruence.
Qed.

Lemma hash_step x c :
  wrap64 (wrap64 (wrap64 (Z.shiftl (wrap64 x) 5) + wrap64 x) + c)
  = wrap64 (33 * x + c).
Proof.
  unfold wrap64. rewrite Z.shiftl_mul_pow2 by lia.
  change (2 ^ 5) with 32. set (M := 2 ^ 64).
  assert (M <> 0) as HM by (subst M; lia).
  pose proof (Z.mod_eq x M HM) as HA. set (A := x mod M) in *.
  pose proof (Z.mod_eq (A * 32) M HM) as HB. set (B := (A * 32) mod M) in *.
  pose proof (Z.mod_eq (B + A) M HM) as HC. set (C := (B + A) mod M) in *.
  replace (C + c)
    with (33 * x + c + (- (33 * (x / M) + A * 32 / M + (B + A) / M)) * M)
    by lia.
  by apply Z.mod_add.
Qed.

Lemma hash_loop_closed signed s : forall x t,
  Forall (fun b => b <> x00) s ->
  hash_loop signed (wrap64 x) s
  = wrap64 (fold_left (fun a b => 33 * a + char_to_int signed b) s x) /\
  hash_loop signed (wrap64 x) (s ++ x00 :: t) = hash_loop signed (wrap64 x) s.
Proof.
  induction s as [|b s IH]; intros x t Hs.
  { simpl. rewrite decide_True; [done|]. by apply char_to_int_zero. }
  apply Forall_cons in Hs as [Hb Hs]. simpl.
  rewrite !decide_False by (by rewrite char_to_int_zero).
  rewrite !hash_step. by apply IH.
Qed.

(** X26.  [hash_string] is the djb2 hash on 64 bits: for a name of bytes
    [c1 .. cn], none of them NUL, it is
    [5381 * 33^n + c1 * 33^(n-1) + ... + cn] modulo 2^64, each byte read as
    a [char] of the platform.  The name ends at its first NUL byte: what
    follows it has no part in the hash. *)
Theorem hash_string_is_djb2 signed s t :
  Forall (fun b => b <> x00) s ->
  hash_string signed s
  = wrap64 (fold_left (fun a b => 33 * a + char_to_int signed b) s 5381) /\
  hash_string signed (s ++ x00 :: t) = hash_string signed s.
Proof.
  intros Hs. unfold hash_string.
  change 5381 with (wrap64 5381) at 1 3 4.
  by apply hash_loop_closed.
Qed.

Lemma hash_string_is_djb2_witness :
  hash_string true [x74; x31]
  = wrap64 (fold_left (fun a b => 33 * a + char_to_int true b) [x74; x31] 5381) /\
  hash_string true ([x74; x31] ++ x00 :: [x2f]) = hash_string true [x74; x31].
Proof.
  apply hash_string_is_djb2.
  repeat constructor; discriminate.
Defined.

(** ** Row mutations *)

Import Safekeeper.

(** X27.  A row mutation only queues: it returns 0 and has made no call to
    the network, whatever the state of the connection.  The requests are
    queued in the order of the mutations, on the timeline of the table, with
    consecutive LSNs from the handler's counter; an update logs the new row
    image alone. *)
Theorem row_mutations_are_only_queued reclength ops : forall h c tr,
  0 <= current_lsn h ->
  current_lsn h + Z.of_nat (List.length ops) < 2 ^ 64 ->
  let '(rs, (h', (c', tr'))) := row_ops reclength ops (h, (c, tr)) in
  rs = replicate (List.length ops) 0 /\
  tr' = tr /\
  current_lsn h' = current_lsn h + Z.of_nat (List.length ops) /\
  append_queue c'
  = append_queue c
    ++ imap (fun i op =>
               WalAppendRequest_new (current_timeline h)
                 (WalRecord.mk (current_lsn h + Z.of_nat i)
                               (reclength mod 2 ^ 32) (logged op))) ops.
Proof.
  induction ops as [|op ops IH]; intros h c tr Hlo Hhi.
  { simpl. unfold ret. rewrite app_nil_r, Z.add_0_r. done. }
  simpl. unfold bind at 1.
  assert (row_op reclength op (h, (c, tr))
          = (0, (set_current_lsn (current_lsn h + 1) h,
                 (set_append_queue
                    (append_queue c
                     ++ [WalAppendRequest_new (current_timeline h)
                           (WalRecord.mk (current_lsn h) (reclength mod 2 ^ 32)
                                         (logged op))]) c, tr)))) as ->.
  { simpl in Hhi.
    assert (wrap64 (current_lsn h + 1) = current_lsn h + 1) as Hw.
    { unfold wrap64. apply Z.mod_small. lia. }
    destruct op; unfold row_op, write_row, update_row, delete_row, append_row,
      append_wal_record_async, update, modify, bind, ret; simpl;
      rewrite Hw; done. }
  unfold bind at 1.
  specialize (IH (set_current_lsn (current_lsn h + 1) h)
                (set_append_queue
                    (append_queue c
                     ++ [WalAppendRequest_new (current_timeline h)
                           (WalRecord.mk (current_lsn h) (reclength mod 2 ^ 32)
                                         (logged op))]) c) tr).
  destruct (row_ops reclength ops _) as [rs [h' [c' tr']]].
  simpl in IH, Hhi. destruct IH as (-> & -> & Hlsn & Hq); [lia..|].
  unfold ret. simpl. split; [done|]. split; [done|]. split; [lia|].
  rewrite Hq, <- app_assoc. simpl. f_equal. rewrite Z.add_0_r. f_equal.
  apply imap_ext. intros i x _. simpl. do 2 f_equal. lia.
Qed.

Lemma row_mutations_are_only_queued_witness :
  let h := mk_ha_serverless (TimelineId.mk 7) ∅ [] 1 in
  let ops := [op_write [x61]; op_update [x61] [x62]; op_delete [x62]] in
  let '(rs, (h', (c', tr'))) :=
    row_ops 1 ops (h, (SafekeeperClient_new "localhost" 5433, [])) in
  rs = [0; 0; 0] /\ tr' = [] /\ current_lsn h' = 4 /\
  map payload (append_queue c')
  = [(TimelineId.mk 7, WalRecord.mk 1 1 [x61]);
     (TimelineId.mk 7, WalRecord.mk 2 1 [x62]);
     (TimelineId.mk 7, WalRecord.mk 3 1 [x62])].
Proof.
  intros h ops.
  pose proof (row_mutations_are_only_queued 1 ops h
                (SafekeeperClient_new "localhost" 5433) []) as H.
  destruct (row_ops 1 ops _) as [rs [h' [c' tr']]].
  destruct H as (-> & -> & Hlsn & Hq); [simpl; lia|simpl; lia|].
  rewrite Hlsn, Hq. repeat split.
Defined.

(** X28.  The LSN counter belongs to the handler and starts again at 1 at
    every [open]: two handlers opened on the same table log their first row
    on the same timeline under the same LSN 1, whatever they logged
    before. *)
Theorem handlers_share_lsns signed name reclength op1 op2 ha hb c tr :
  let '(ra, ha1) := open signed name true ha in
  let '(rb, hb1) := open signed name true hb in
  let '(_, (_, sk1)) := row_op reclength op1 (ha1, (c, tr)) in
  let '(_, (_, (c2, _))) := row_op reclength op2 (hb1, sk1) in
  ra = 0 /\ rb = 0 /\
  map payload (append_queue c2)
  = map payload (append_queue c)
    ++ [(TimelineId.mk (hash_string signed name),
         WalRecord.mk 1 (reclength mod 2 ^ 32) (logged op1));
        (TimelineId.mk (hash_string signed name),
         WalRecord.mk 1 (reclength mod 2 ^ 32) (logged op2))].
Proof.
  unfold open, initialize_timeline, ensure_pageserver_connection,
    ensure_safekeeper_connection. simpl.
  destruct op1, op2;
    unfold row_op, write_row, update_row, delete_row, append_row,
      append_wal_record_async, update, modify, bind, ret; simpl;
    rewrite !map_app, <- !app_assoc; done.
Qed.

(** ** Creating a table *)

(** X29.  [create] never gives back the connections it takes from the
    pool.  Whatever it returns, the pageserver connection at the front of
    the idle queue is gone from it.  When it returns 0 the same holds for
    the safekeeper queue; when it fails, the safekeeper queue has lost its
    front connection or is untouched.  No connection is ever put back. *)
Theorem create_keeps_its_connections signed name cp cs fp fs pool :
  let '(r, pool') := create signed name cp cs fp fs pool in
  let idle kind p := Pool.available_connections (Pool.kind_state kind p) in
  idle Pool.pageserver pool' = drop 1 (idle Pool.pageserver pool) /\
  ((r = 0 /\ idle Pool.safekeeper pool' = drop 1 (idle Pool.safekeeper pool)) \/
   (r <> 0 /\
    (idle Pool.safekeeper pool' = drop 1 (idle Pool.safekeeper pool) \/
     idle Pool.safekeeper pool' = idle Pool.safekeeper pool))).
Proof.
  unfold create, Pool.get_pageserver_connection, Pool.get_safekeeper_connection,
    Pool.get_connection, Pool.get_connection_of. simpl.
  destruct pool as [ps sk]. simpl.
  unfold HA_ERR_GENERIC, HA_ERR_INTERNAL_ERROR.
  repeat (case_match; simplify_eq/=);
    repeat match goal with
           | H : Pool.available_connections _ = _ |- _ => rewrite !H; clear H
           end; simpl;
    (split; [done|]);
    first [ by left
          | right; split; [discriminate|]; first [by left | by right] ].
Qed.

End EngineFacts.
